(** * precompute-eval-embeddings: a model of the dataset construction pipeline

    Shallow embedding of [scripts/precompute-eval-embeddings.py]: annotation
    loading, query selection, candidate sampling, snippet resolution
    ([github_url_to_raw], [fetch_code]), the thread-pool fetch phase and the
    dataset assembly loop.

    Conventions.
    - A Python [str] is a Rocq [string]; characters are 8-bit code units
      (the Latin-1 range of Python's code points).
    - A Python [int] is a [Z]; list lengths and counters are [nat].
    - Exceptions are explicit: a computation that may raise has type [res A].
    - Code that talks to the network has type [io A]: it also yields the list
      of raw URLs it requested, in order.
    - Embedding vectors come from an external model and are left out; the
      output record carries every other field. *)

From Stdlib Require Import ZArith Ascii String List Lia Bool Sorting.Sorted
  Sorting.Permutation DecimalString DecimalNat.
From stdpp Require Import base gmap strings list sorting.

Local Open Scope string_scope.
Local Open Scope list_scope.
Local Open Scope Z_scope.

(** ** Exceptions and the request log *)

Inductive exn : Type :=
  | ValueError   (* int() on a bad literal, "Can't parse" in github_url_to_raw *)
  | URLError.    (* any failure of urlopen / read *)

Inductive res (A : Type) : Type :=
  | Return (a : A)
  | Raise (e : exn).
Arguments Return {A} a.
Arguments Raise {A} e.

Definition res_bind {A B} (m : res A) (f : A -> res B) : res B :=
  match m with
  | Return a => f a
  | Raise e => Raise e
  end.

(** [io A]: the raw URLs requested so far, and the outcome. *)
Definition io (A : Type) : Type := (list string * res A)%type.

Definition io_ret {A} (a : A) : io A := ([], Return a).
Definition io_lift {A} (m : res A) : io A := ([], m).
Definition io_bind {A B} (m : io A) (f : A -> io B) : io B :=
  match m with
  | (log, Return a) => let '(log', r) := f a in (log ++ log', r)
  | (log, Raise e) => (log, Raise e)
  end.
(** [try: m except Exception: h] *)
Definition try_except {A} (m : io A) (h : exn -> io A) : io A :=
  match m with
  | (log, Return a) => (log, Return a)
  | (log, Raise e) => let '(log', r) := h e in (log ++ log', r)
  end.

(** Both are monads; stdpp's [x ← m; k] notation is used for them. *)
#[global] Instance res_ret : MRet res := fun A a => Return a.
#[global] Instance res_mbind : MBind res := fun A B f m => res_bind m f.
#[global] Instance io_mret : MRet io := fun A a => io_ret a.
#[global] Instance io_mbind : MBind io := fun A B f m => io_bind m f.

(** ** Python built-ins used by the script *)

Module Py.

(** [str.isspace] on one character, for code points below 256. *)
Definition is_space (c : ascii) : bool :=
  let n := nat_of_ascii c in
  ((9 <=? n)%nat && (n <=? 13)%nat) || ((28 <=? n)%nat && (n <=? 32)%nat)
  || (n =? 133)%nat || (n =? 160)%nat.

Definition is_digit (c : ascii) : bool :=
  let n := nat_of_ascii c in (48 <=? n)%nat && (n <=? 57)%nat.

Definition digit_val (c : ascii) : Z := Z.of_nat (nat_of_ascii c) - 48.

Definition is_empty (s : string) : bool :=
  match s with EmptyString => true | String _ _ => false end.

(** [len(s)] *)
Definition len (s : string) : Z := Z.of_nat (String.length s).

Fixpoint lstrip (s : string) : string :=
  match s with
  | EmptyString => EmptyString
  | String c r => if is_space c then lstrip r else s
  end.

Fixpoint rstrip (s : string) : string :=
  match s with
  | EmptyString => EmptyString
  | String c r =>
      let r' := rstrip r in
      if is_space c && is_empty r' then EmptyString else String c r'
  end.

(** [s.strip()] *)
Definition strip (s : string) : string := rstrip (lstrip s).

(** [sep.join(parts)] *)
Definition join (sep : string) (parts : list string) : string :=
  String.concat sep parts.

(** Index adjustment of a slice bound (step 1), as CPython's
    [PySlice_AdjustIndices]: a negative bound counts from the end. *)
Definition slice_index (n i : Z) : Z :=
  if i <? 0 then Z.max 0 (n + i) else Z.min n i.

(** [l[lo:hi]]; [None] is an omitted bound. *)
Definition slice {A} (l : list A) (lo hi : option Z) : list A :=
  let n := Z.of_nat (length l) in
  let a := match lo with None => 0 | Some i => slice_index n i end in
  let b := match hi with None => n | Some i => slice_index n i end in
  take (Z.to_nat (b - a)) (drop (Z.to_nat a) l).

(** [s[:k]] on a string, for [0 <= k]. *)
Fixpoint str_take (k : nat) (s : string) : string :=
  match k, s with
  | O, _ => EmptyString
  | S _, EmptyString => EmptyString
  | S k', String c r => String c (str_take k' r)
  end.

Definition str_slice_to (s : string) (hi : Z) : string :=
  str_take (Z.to_nat (slice_index (len s) hi)) s.

(** Line boundaries recognised by [str.splitlines] below code point 256. *)
Definition is_linebreak (c : ascii) : bool :=
  let n := nat_of_ascii c in
  ((10 <=? n)%nat && (n <=? 13)%nat) || ((28 <=? n)%nat && (n <=? 30)%nat)
  || (n =? 133)%nat.

Definition is_cr (c : ascii) : bool := (nat_of_ascii c =? 13)%nat.
Definition is_lf (c : ascii) : bool := (nat_of_ascii c =? 10)%nat.

Fixpoint rev_string (acc s : string) : string :=
  match s with
  | EmptyString => acc
  | String c r => rev_string (String c acc) r
  end.

(** [s.splitlines()]; [cur] is the pending line, reversed. *)
Fixpoint splitlines_go (cur : string) (s : string) : list string :=
  match s with
  | EmptyString => if is_empty cur then [] else [rev_string "" cur]
  | String c r =>
      if is_cr c then
        match r with
        | String c' r' =>
            if is_lf c' then rev_string "" cur :: splitlines_go "" r'
            else rev_string "" cur :: splitlines_go "" r
        | EmptyString => rev_string "" cur :: splitlines_go "" r
        end
      else if is_linebreak c then rev_string "" cur :: splitlines_go "" r
      else splitlines_go (String c cur) r
  end.

Definition splitlines (s : string) : list string := splitlines_go "" s.

(** Digits of an integer literal: a digit first, then digits with single
    underscores between them. Yields the digit count and the value. *)
Fixpoint int_digits (prev_digit : bool) (acc : Z) (n : nat) (s : string)
  : option (nat * Z) :=
  match s with
  | EmptyString => if prev_digit then Some (n, acc) else None
  | String c r =>
      if is_digit c then int_digits true (10 * acc + digit_val c) (S n) r
      else if (nat_of_ascii c =? 95)%nat && prev_digit
           then int_digits false acc n r
           else None
  end.

(** The whitespace [int()] skips around a literal. It is not the set of
    [str.strip]: the parser skips tab to carriage return and the space, and
    the NEL and no-break space reach it as spaces; the separators 28 to 31
    are left in place and make the literal invalid. *)
Definition is_int_space (c : ascii) : bool :=
  let n := nat_of_ascii c in
  ((9 <=? n)%nat && (n <=? 13)%nat) || (n =? 32)%nat
  || (n =? 133)%nat || (n =? 160)%nat.

(** Dropping the characters that satisfy [P] from either end. *)
Fixpoint lskip (P : ascii -> bool) (s : string) : string :=
  match s with
  | EmptyString => EmptyString
  | String c r => if P c then lskip P r else s
  end.

Fixpoint rskip (P : ascii -> bool) (s : string) : string :=
  match s with
  | EmptyString => EmptyString
  | String c r =>
      let r' := rskip P r in
      if P c && is_empty r' then EmptyString else String c r'
  end.

(** [int(s)] on a string: surrounding whitespace, an optional sign, then
    the digits. [max_str_digits] is the interpreter's
    [sys.get_int_max_str_digits()]: 4300 by default from Python 3.11 on,
    [0] for no limit (and for earlier versions); the interpreter accepts no
    other value below 640. A literal with more digits raises [ValueError]. *)
Definition int (max_str_digits : nat) (s : string) : res Z :=
  let body := rskip is_int_space (lskip is_int_space s) in
  let '(neg, ds) :=
    match body with
    | String c r =>
        if (nat_of_ascii c =? 45)%nat then (true, r)
        else if (nat_of_ascii c =? 43)%nat then (false, r)
        else (false, body)
    | EmptyString => (false, body)
    end in
  match int_digits false 0 O ds with
  | Some (n, v) =>
      if (0 <? max_str_digits)%nat && (max_str_digits <? n)%nat
      then Raise ValueError
      else Return (if neg then - v else v)
  | None => Raise ValueError
  end.

(** [f"{n:02d}"] for a non-negative [n]. *)
Definition fmt_02d (n : nat) : string :=
  let s := NilEmpty.string_of_uint (Nat.to_uint n) in
  if (n <? 10)%nat then String "0" s else s.

End Py.

(** ** Configuration *)

Definition TARGET_QUERIES : Z := 25.
Definition MAX_CANDIDATES : Z := 12.
Definition MIN_POSITIVES : Z := 2.
Definition RELEVANCE_THRESHOLD : Z := 2.

(** ** Data *)

(** One row of [csv.DictReader]. [Relevance] is [None] when the row is too
    short to have the column. *)
Module Row.
Record t : Type := mk
  { Language : string; Query : string; GitHubUrl : string;
    Relevance : option string }.
End Row.

(** [{"url": ..., "relevance": ...}] *)
Module Candidate.
Record t : Type := mk { url : string; relevance : Z }.
End Candidate.

(** An element of [q_chunks] / [chunks_raw]. *)
Module Chunk.
Record t : Type := mk
  { id : string; query_id : string; relevance : Z; source_url : string;
    code : string }.
End Chunk.

(** An element of [queries_raw]. [relevanceScores] is a Python dict, kept
    in insertion order. *)
Module EvalQuery.
Record t : Type := mk
  { id : string; query : string; relevantIds : list string;
    relevanceScores : list (string * Z); chunkIds : list string }.
End EvalQuery.

(** ** Insertion-ordered dictionaries with string keys *)

Module Dict.

Fixpoint get {V} (d : list (string * V)) (k : string) : option V :=
  match d with
  | [] => None
  | (k', v) :: d' => if decide (k' = k) then Some v else get d' k
  end.

(** [d[k] = v]: an existing key keeps its position. *)
Fixpoint set {V} (d : list (string * V)) (k : string) (v : V)
  : list (string * V) :=
  match d with
  | [] => [(k, v)]
  | (k', v') :: d' =>
      if decide (k' = k) then (k', v) :: d' else (k', v') :: set d' k v
  end.

(** [d[k].append(x)] on a [defaultdict(list)]. *)
Fixpoint append {V} (d : list (string * list V)) (k : string) (x : V)
  : list (string * list V) :=
  match d with
  | [] => [(k, [x])]
  | (k', v) :: d' =>
      if decide (k' = k) then (k', v ++ [x]) :: d'
      else (k', v) :: append d' k x
  end.

(** [{key(c): val(c) for c in l}] *)
Definition comprehension {A V} (key : A -> string) (val : A -> V)
    (l : list A) : list (string * V) :=
  fold_left (fun d c => set d (key c) (val c)) l [].

End Dict.

(** ** Selection and sampling *)

Definition positive (c : Candidate.t) : Prop :=
  RELEVANCE_THRESHOLD <= Candidate.relevance c.
Definition negative (c : Candidate.t) : Prop :=
  Candidate.relevance c < RELEVANCE_THRESHOLD.

#[global] Instance positive_dec c : Decision (positive c).
Proof. unfold positive. apply _. Defined.
#[global] Instance negative_dec c : Decision (negative c).
Proof. unfold negative. apply _. Defined.

(** [sum(1 for c in cs if c["relevance"] >= RELEVANCE_THRESHOLD)] *)
Definition n_positives (cs : list Candidate.t) : Z :=
  Z.of_nat (length (filter positive cs)).

(** [sorted(l, key=key)]: ascending in the key, stable. *)
Fixpoint insert_by {A} (key : A -> Z) (x : A) (l : list A) : list A :=
  match l with
  | [] => [x]
  | y :: l' =>
      if decide (key x <= key y) then x :: l else y :: insert_by key x l'
  end.

Definition sorted {A} (key : A -> Z) (l : list A) : list A :=
  foldr (insert_by key) [] l.

Definition sufficient (x : string * list Candidate.t) : Prop :=
  MIN_POSITIVES <= n_positives x.2.

#[global] Instance sufficient_dec x : Decision (sufficient x).
Proof. unfold sufficient. apply _. Defined.

Definition good_queries (by_query : list (string * list Candidate.t))
  : list (string * list Candidate.t) :=
  Py.slice
    (sorted (fun x => - n_positives x.2) (filter sufficient by_query))
    None (Some TARGET_QUERIES).

(** [positives + negatives[:MAX_CANDIDATES - len(positives)]] *)
Definition selected (candidates : list Candidate.t) : list Candidate.t :=
  let positives := filter positive candidates in
  let negatives := filter negative candidates in
  positives ++
  Py.slice negatives None
    (Some (MAX_CANDIDATES - Z.of_nat (length positives))).

(** A fetch job [(query, url, relevance)]. *)
Definition job : Type := (string * string * Z)%type.
Definition job_url (j : job) : string := j.1.2.

Definition fetch_jobs (gq : list (string * list Candidate.t)) : list job :=
  gq ≫= (fun '(query, candidates) =>
            (fun c => (query, Candidate.url c, Candidate.relevance c))
            <$> selected candidates).

(** ** The URL pattern of [github_url_to_raw]

    [https://github\.com/([^/]+)/([^/]+)/blob/([^/]+)/(.+?)(?:#L(\d+)(?:-L(\d+))?)?$]
    under [re.match]. Each [[^/]+] is followed by a literal [/], and each
    [\d+] by a non-digit or the end, so the greedy groups can only take their
    maximal run; the lazy path group is tried from the shortest length up. *)

Module Re.

Fixpoint strip_prefix (p s : string) : option string :=
  match p, s with
  | EmptyString, _ => Some s
  | String a p', String b s' =>
      if decide (a = b) then strip_prefix p' s' else None
  | String _ _, EmptyString => None
  end.

(** The longest prefix whose characters satisfy [P], and the rest. *)
Fixpoint span (P : ascii -> bool) (s : string) : string * string :=
  match s with
  | EmptyString => (EmptyString, EmptyString)
  | String c r =>
      if P c then let '(a, b) := span P r in (String c a, b)
      else (EmptyString, s)
  end.

Definition not_slash (c : ascii) : bool := negb (nat_of_ascii c =? 47)%nat.

(** [$]: at the end, or just before a final newline. *)
Definition at_end (s : string) : bool :=
  match s with
  | EmptyString => true
  | String c EmptyString => Py.is_lf c
  | _ => false
  end.

(** [(?:#L(\d+)(?:-L(\d+))?)?$] against the whole remaining input. *)
Definition match_fragment (s : string)
  : option (option string * option string) :=
  let skip := if at_end s then Some (None, None) else None in
  match strip_prefix "#L" s with
  | None => skip
  | Some r =>
      let '(l1, r1) := span Py.is_digit r in
      if Py.is_empty l1 then skip
      else
        let no_l2 := if at_end r1 then Some (Some l1, None) else skip in
        match strip_prefix "-L" r1 with
        | None => no_l2
        | Some r2 =>
            let '(l2, r3) := span Py.is_digit r2 in
            if negb (Py.is_empty l2) && at_end r3
            then Some (Some l1, Some l2) else no_l2
        end
  end.

(** [(.+?)] followed by the fragment: the shortest non-empty path, free of
    newlines, after which the fragment pattern matches. *)
Fixpoint match_path (s : string)
  : option (string * option string * option string) :=
  match s with
  | EmptyString => None
  | String c r =>
      if Py.is_lf c then None
      else match match_fragment r with
           | Some (l1, l2) => Some (String c EmptyString, l1, l2)
           | None =>
               match match_path r with
               | Some (p, l1, l2) => Some (String c p, l1, l2)
               | None => None
               end
           end
  end.

(** [m.groups()], or [None] when there is no match. *)
Definition match_blob_url (url : string)
  : option (string * string * string * string
            * option string * option string) :=
  r0 ← strip_prefix "https://github.com/" url;
  let '(owner, r1) := span not_slash r0 in
  if Py.is_empty owner then None else
  r2 ← strip_prefix "/" r1;
  let '(repo, r3) := span not_slash r2 in
  if Py.is_empty repo then None else
  r4 ← strip_prefix "/blob/" r3;
  let '(sha, r5) := span not_slash r4 in
  if Py.is_empty sha then None else
  r6 ← strip_prefix "/" r5;
  '(path, l1, l2) ← match_path r6;
  Some (owner, repo, sha, path, l1, l2).

End Re.

(** ** The script *)

Definition LF : string := String "010" EmptyString.

(** Python truthiness of an optional string. *)
Definition truthy (o : option string) : bool :=
  match o with
  | Some s => negb (Py.is_empty s)
  | None => false
  end.

(** The output document, without the embedding vectors. *)
Module ChunkOut.
Record t : Type := mk
  { id : string; query_id : string; relevance : Z; code : string }.
End ChunkOut.

Record output : Type := mk_output
  { generatedAt : string; queryCount : Z; chunkCount : Z;
    chunks : list ChunkOut.t; queries : list EvalQuery.t }.

(** State of the assembly loop. *)
Record state : Type := mk_state
  { chunk_counter : gmap string nat;
    queries_raw : list EvalQuery.t;
    chunks_raw : list Chunk.t }.

Section Script.

(** [sys.get_int_max_str_digits()] of the interpreter running the script. *)
Variable int_max_str_digits : nat.

(** *** Annotation loading *)

(** [int(r["Relevance"] or 0)] *)
Definition relevance_of (r : Row.t) : res Z :=
  if truthy (Row.Relevance r)
  then Py.int int_max_str_digits (default "" (Row.Relevance r))
  else Return 0.

Fixpoint group_rows (py_rows : list Row.t)
    (by_query : list (string * list Candidate.t))
  : res (list (string * list Candidate.t)) :=
  match py_rows with
  | [] => Return by_query
  | r :: rest =>
      rel ← relevance_of r;
      group_rows rest
        (Dict.append by_query (Row.Query r)
           (Candidate.mk (Row.GitHubUrl r) rel))
  end.

Definition py_rows (rows : list Row.t) : list Row.t :=
  filter (fun r => Row.Language r = "Python") rows.

Definition load (rows : list Row.t)
  : res (list (string * list Candidate.t)) :=
  group_rows (py_rows rows) [].

(** *** Snippet resolution *)

Definition github_url_to_raw (url : string) : res (string * Z * Z) :=
  match Re.match_blob_url url with
  | None => Raise ValueError
  | Some (owner, repo, sha, path, l1, l2) =>
      let raw := "https://raw.githubusercontent.com/" +:+ owner +:+ "/"
                 +:+ repo +:+ "/" +:+ sha +:+ "/" +:+ path in
      start ← (if truthy l1 then Py.int int_max_str_digits (default "" l1)
               else Return 1);
      end_ ← (if truthy l2 then Py.int int_max_str_digits (default "" l2)
              else Return (start + 40));
      Return (raw, start, end_)
  end.

(** [urlopen(raw_url).read().decode(errors="replace")]. [net] gives the
    decoded body, or [None] when the request raises. *)
Definition urlopen (net : string -> option string) (raw_url : string)
  : io string :=
  ([raw_url],
   match net raw_url with
   | Some text => Return text
   | None => Raise URLError
   end).

(** The text cut out by the line range, before trimming:
    [start = max(0, start - 1); end = min(len(lines), end);
     "\n".join(lines[start:end])]. *)
Definition extract (lines : list string) (start end_ : Z) : string :=
  let start := Z.max 0 (start - 1) in
  let end_ := Z.min (Z.of_nat (length lines)) end_ in
  Py.join LF (Py.slice lines (Some start) (Some end_)).

(** The tail of [fetch_code]: trim, reject short results, cap the length. *)
Definition finish (joined : string) : option string :=
  let snippet := Py.strip joined in
  if Py.len snippet <? 30 then None
  else Some (Py.str_slice_to snippet 2000).

Definition fetch_code (net : string -> option string) (url : string)
  : io (option string) :=
  try_except
    ('(raw_url, start, end_) ← io_lift (github_url_to_raw url);
     text ← urlopen net raw_url;
     let lines := Py.splitlines text in
     mret (finish (extract lines start end_)))
    (fun _ => mret None).

(** *** The fetch phase

    Every job is submitted to the pool; job [i] runs [fetch_code] against
    the network as it answers that call, [net i]. [order] is the order in
    which [as_completed] yields the futures, as indices into the job list. *)

Definition pool_outcomes (net : nat -> string -> option string)
    (jobs : list job) : list (io (option string)) :=
  imap (fun i j => fetch_code (net i) (job_url j)) jobs.

(** [for fut in as_completed(futures): results[url] = fut.result()] *)
Fixpoint collect (jobs : list job) (outs : list (res (option string)))
    (order : list nat) (results : gmap string (option string))
  : res (gmap string (option string)) :=
  match order with
  | [] => Return results
  | i :: rest =>
      match jobs !! i, outs !! i with
      | Some j, Some (Return v) =>
          collect jobs outs rest (<[job_url j := v]> results)
      | Some _, Some (Raise e) => Raise e
      | _, _ => collect jobs outs rest results
      end
  end.

Definition run_pool (net : nat -> string -> option string)
    (jobs : list job) (order : list nat)
  : io (gmap string (option string)) :=
  let outs := pool_outcomes net jobs in
  (concat (fst <$> outs), collect jobs (snd <$> outs) order ∅).

(** *** Dataset assembly *)

(** [code = results.get(url)], kept when truthy. *)
Definition resolved (results : gmap string (option string)) (url : string)
  : option string :=
  match results !! url with
  | Some (Some code) => if Py.is_empty code then None else Some code
  | _ => None
  end.

Definition qid_of (qi : nat) : string := "q_" +:+ Py.fmt_02d qi.
Definition cid_of (qid : string) (n : nat) : string :=
  qid +:+ "_c" +:+ Py.fmt_02d n.

(** The inner loop [for c in selected]. *)
Fixpoint build_q_chunks (results : gmap string (option string))
    (qid : string) (sel : list Candidate.t)
    (counter : gmap string nat) (q_chunks : list Chunk.t)
  : gmap string nat * list Chunk.t :=
  match sel with
  | [] => (counter, q_chunks)
  | c :: rest =>
      match resolved results (Candidate.url c) with
      | None => build_q_chunks results qid rest counter q_chunks
      | Some code =>
          let n := S (default O (counter !! qid)) in
          build_q_chunks results qid rest (<[qid := n]> counter)
            (q_chunks ++
             [Chunk.mk (cid_of qid n) qid (Candidate.relevance c)
                (Candidate.url c) code])
      end
  end.

Definition chunk_relevant (c : Chunk.t) : Prop :=
  RELEVANCE_THRESHOLD <= Chunk.relevance c.

#[global] Instance chunk_relevant_dec c : Decision (chunk_relevant c).
Proof. unfold chunk_relevant. apply _. Defined.

(** One iteration of [for qi, (query, candidates) in enumerate(good_queries)]. *)
Definition assemble_step (results : gmap string (option string))
    (st : state) (qi : nat) (entry : string * list Candidate.t) : state :=
  let '(query, candidates) := entry in
  let qid := qid_of qi in
  let '(counter, q_chunks) :=
    build_q_chunks results qid (selected candidates) (chunk_counter st) [] in
  let skipped := mk_state counter (queries_raw st) (chunks_raw st) in
  match q_chunks with
  | [] => skipped
  | _ :: _ =>
      let relevant_ids := Chunk.id <$> filter chunk_relevant q_chunks in
      if Z.of_nat (length relevant_ids) <? MIN_POSITIVES then skipped
      else
        let relevance_scores :=
          Dict.comprehension Chunk.id Chunk.relevance q_chunks in
        mk_state counter
          (queries_raw st ++
           [EvalQuery.mk qid query relevant_ids relevance_scores
              (Chunk.id <$> q_chunks)])
          (chunks_raw st ++ q_chunks)
  end.

Fixpoint assemble_loop (results : gmap string (option string))
    (st : state) (qi : nat) (gq : list (string * list Candidate.t)) : state :=
  match gq with
  | [] => st
  | entry :: rest =>
      assemble_loop results (assemble_step results st qi entry) (S qi) rest
  end.

Definition assemble (results : gmap string (option string))
    (gq : list (string * list Candidate.t)) : state :=
  assemble_loop results (mk_state ∅ [] []) O gq.

(** *** The whole run, from the parsed feed to the output document *)

Definition chunks_out (chunks_raw : list Chunk.t) : list ChunkOut.t :=
  (fun c => ChunkOut.mk (Chunk.id c) (Chunk.query_id c)
              (Chunk.relevance c) (Chunk.code c)) <$> chunks_raw.

Definition dataset (results : gmap string (option string))
    (gq : list (string * list Candidate.t)) (now : string) : output :=
  let st := assemble results gq in
  mk_output now (Z.of_nat (length (queries_raw st)))
    (Z.of_nat (length (chunks_raw st)))
    (chunks_out (chunks_raw st)) (queries_raw st).

Definition main (rows : list Row.t) (net : nat -> string -> option string)
    (order : list nat) (now : string) : io output :=
  by_query ← io_lift (load rows);
  let gq := good_queries by_query in
  results ← run_pool net (fetch_jobs gq) order;
  mret (dataset results gq now).

End Script.

(** ** Auxiliary definitions for the statements *)

(** Thirteen positives and two negatives. *)
Definition over_cap_candidates : list Candidate.t :=
  ((fun i => Candidate.mk ("p" +:+ Py.fmt_02d i) 3) <$> seq 1 13)
  ++ [Candidate.mk "n1" 0; Candidate.mk "n2" 1].

(** [c] is among the candidates stored under query [q]. *)
Definition loaded (by_query : list (string * list Candidate.t))
    (q : string) (c : Candidate.t) : Prop :=
  exists cs, Dict.get by_query q = Some cs /\ c ∈ cs.


(** Every character of [s] satisfies [P]. *)
Fixpoint str_forall (P : ascii -> bool) (s : string) : bool :=
  match s with
  | EmptyString => true
  | String c r => P c && str_forall P r
  end.

(** The locator has no [#] at all, hence no line fragment. *)
Definition no_hash (url : string) : bool :=
  str_forall (fun c => negb (nat_of_ascii c =? 35)%nat) url.

(** Line [i] of a file, counting from 1. *)
Definition line (lines : list string) (i : Z) : option string :=
  if decide (1 <= i) then lines !! Z.to_nat (i - 1) else None.

(** [x] occurs at an earlier position of [l] than [y]. *)
Definition precedes {A} (l : list A) (x y : A) : Prop :=
  exists l1 l2 l3, l = l1 ++ x :: l2 ++ y :: l3.

(** The ranking of the selector: more positives first, and among equal
    counts the query met first in the feed. *)
Definition ranks_before (by_query : list (string * list Candidate.t))
    (x y : string * list Candidate.t) : Prop :=
  n_positives y.2 < n_positives x.2
  \/ (n_positives y.2 = n_positives x.2 /\ precedes by_query x y).

(** The positives of a selected query whose fetch gave a usable text. *)
Definition resolved_positives (results : gmap string (option string))
    (entry : string * list Candidate.t) : Z :=
  Z.of_nat (length (filter
    (fun c => positive c /\ is_Some (resolved results (Candidate.url c)))
    (selected entry.2))).

(** Invariant of the assembly loop, before iteration [qi] over [gq]. *)
Definition chunk_ok (qi : nat) (queries : list EvalQuery.t) (c : Chunk.t)
  : Prop :=
  exists j n q,
    (j < qi)%nat /\ Chunk.id c = cid_of (qid_of j) n
    /\ Chunk.query_id c = qid_of j
    /\ q ∈ queries /\ EvalQuery.id q = qid_of j
    /\ Chunk.id c ∈ EvalQuery.chunkIds q.

Definition query_ok (results : gmap string (option string))
    (gq : list (string * list Candidate.t)) (qi : nat)
    (chunks : list Chunk.t) (q : EvalQuery.t) : Prop :=
  (forall i, i ∈ EvalQuery.relevantIds q -> i ∈ EvalQuery.chunkIds q)
  /\ MIN_POSITIVES <= Z.of_nat (length (EvalQuery.relevantIds q))
  /\ (forall i, i ∈ (EvalQuery.relevanceScores q).*1
                <-> i ∈ EvalQuery.chunkIds q)
  /\ (forall i, i ∈ EvalQuery.chunkIds q ->
        exists c, c ∈ chunks /\ Chunk.id c = i
                  /\ Chunk.query_id c = EvalQuery.id q)
  /\ exists j entry,
       (j < qi)%nat /\ gq !! j = Some entry /\ EvalQuery.id q = qid_of j
       /\ MIN_POSITIVES <= resolved_positives results entry.

Record assembled (results : gmap string (option string))
    (gq : list (string * list Candidate.t)) (qi : nat) (st : state)
  : Prop := mk_assembled
  { asm_queries :
      forall q, q ∈ queries_raw st ->
                query_ok results gq qi (chunks_raw st) q;
    asm_chunks :
      forall c, c ∈ chunks_raw st -> chunk_ok qi (queries_raw st) c;
    asm_chunk_ids : NoDup (Chunk.id <$> chunks_raw st);
    asm_query_ids : NoDup (EvalQuery.id <$> queries_raw st) }.

(** The raw URL a locator is fetched from, when it parses. *)
Definition raw_of (int_max_str_digits : nat) (url : string) : option string :=
  match github_url_to_raw int_max_str_digits url with
  | Return (raw, _, _) => Some raw
  | Raise _ => None
  end.

(** What job [i] stores for locator [url]. *)
Definition fetch_value (int_max_str_digits : nat)
    (net : string -> option string) (url : string) : option string :=
  match (fetch_code int_max_str_digits net url).2 with
  | Return v => v
  | Raise _ => None
  end.

(** The results map after the completion order [order]. *)
Definition pool_step (int_max_str_digits : nat)
    (net : nat -> string -> option string) (jobs : list job)
    (results : gmap string (option string)) (i : nat)
  : gmap string (option string) :=
  match jobs !! i with
  | Some j =>
      <[job_url j := fetch_value int_max_str_digits (net i) (job_url j)]>
        results
  | None => results
  end.

Definition pool_results (int_max_str_digits : nat)
    (net : nat -> string -> option string) (jobs : list job)
    (order : list nat) : gmap string (option string) :=
  fold_left (pool_step int_max_str_digits net jobs) order ∅.

(** The fetch jobs of a run, and two outcomes of a run that agree on
    everything but [generatedAt]. *)
Definition jobs_of (int_max_str_digits : nat) (rows : list Row.t)
  : list job :=
  match load int_max_str_digits rows with
  | Return by_query => fetch_jobs (good_queries by_query)
  | Raise _ => []
  end.

Definition structure (o : output)
  : Z * Z * list ChunkOut.t * list EvalQuery.t :=
  (queryCount o, chunkCount o, chunks o, queries o).

Definition same_outcome (r1 r2 : res output) : Prop :=
  match r1, r2 with
  | Return a, Return b => structure a = structure b
  | Raise e1, Raise e2 => e1 = e2
  | _, _ => False
  end.

(** Two queries that share the locator [a.py]. *)
Definition shared_locator_rows : list Row.t :=
  [ Row.mk "Python" "parse json" "https://github.com/o/r/blob/abc/a.py"
      (Some "3");
    Row.mk "Python" "parse json" "https://github.com/o/r/blob/abc/b.py"
      (Some "3");
    Row.mk "Python" "read file" "https://github.com/o/r/blob/abc/a.py"
      (Some "2");
    Row.mk "Python" "read file" "https://github.com/o/r/blob/abc/c.py"
      (Some "3") ].

Definition sample_text : string :=
  "def parse_json(text):
    return json.loads(text)
# a file with three lines".

(** Scenario B: three candidates of relevance 3, 3, 1; the fetch of the
    first one failed. *)
Definition scenario_b_query : string * list Candidate.t :=
  ("parse json",
   [ Candidate.mk "https://github.com/o/r/blob/abc/a.py" 3;
     Candidate.mk "https://github.com/o/r/blob/abc/b.py" 3;
     Candidate.mk "https://github.com/o/r/blob/abc/c.py" 1 ]).

Definition scenario_b_results : gmap string (option string) :=
  <["https://github.com/o/r/blob/abc/a.py" := None]>
    (<["https://github.com/o/r/blob/abc/b.py" := Some sample_text]>
       (<["https://github.com/o/r/blob/abc/c.py" := Some sample_text]> ∅)).

(** Scenario A: the same query with every fetch successful. *)
Definition scenario_a_results : gmap string (option string) :=
  <["https://github.com/o/r/blob/abc/a.py" := Some sample_text]>
    scenario_b_results.

(** A captured line number is a run of digits. *)
Definition opt_digits (o : option string) : Prop :=
  forall d, o = Some d -> str_forall Py.is_digit d = true.

(** The order [sorted] sorts by. *)
Definition key_le {A} (key : A -> Z) (a b : A) : Prop := key a <= key b.

(** ** Further definitions for the statements *)

(** The candidate a feed row stands for: its locator with the relevance the
    loader reads from it. *)
Definition candidate_of (int_max_str_digits : nat) (r : Row.t) : Candidate.t :=
  Candidate.mk (Row.GitHubUrl r)
    (match relevance_of int_max_str_digits r with
     | Return z => z
     | Raise _ => 0
     end).

(** The distinct elements of a list, in the order of their first
    occurrence. *)
Fixpoint first_seen (l : list string) : list string :=
  match l with
  | [] => []
  | q :: l' => q :: filter (fun k => k <> q) (first_seen l')
  end.

(** The string is empty or begins with a character that is not
    whitespace. *)
Definition starts_non_space (s : string) : Prop :=
  match s with
  | EmptyString => True
  | String c _ => Py.is_space c = false
  end.

(** A locator written out from its parts, and the raw URL of those parts. *)
Definition blob_url (owner repo sha path fragment : string) : string :=
  "https://github.com/" +:+ owner +:+ "/" +:+ repo +:+ "/blob/" +:+ sha
  +:+ "/" +:+ path +:+ fragment.

Definition raw_url (owner repo sha path : string) : string :=
  "https://raw.githubusercontent.com/" +:+ owner +:+ "/" +:+ repo +:+ "/"
  +:+ sha +:+ "/" +:+ path.

(** A line number in decimal. *)
Definition decimal (n : nat) : string :=
  NilEmpty.string_of_uint (Nat.to_uint n).

(** An owner, repository or revision: not empty, no [/]. *)
Definition is_component (s : string) : Prop :=
  s <> "" /\ str_forall Re.not_slash s = true.

(** A file path: not empty, no newline and no [#]. *)
Definition is_path (s : string) : Prop :=
  s <> ""
  /\ str_forall (fun c => negb (Py.is_lf c)
                          && negb (nat_of_ascii c =? 35)%nat) s = true.

(** The literal is within the interpreter's digit limit. *)
Definition digits_fit (int_max_str_digits : nat) (n : nat) : Prop :=
  int_max_str_digits = O
  \/ (String.length (decimal n) <= int_max_str_digits)%nat.

(** The sampled candidates whose locator resolved, with the text. *)
Definition resolved_candidates (results : gmap string (option string))
    (sel : list Candidate.t) : list (Candidate.t * string) :=
  omap (fun c => (fun code => (c, code)) <$> resolved results (Candidate.url c))
       sel.

(** Chunks numbered [start+1], [start+2], ... under [qid]. *)
Definition numbered_chunks (qid : string) (start : nat)
    (rc : list (Candidate.t * string)) : list Chunk.t :=
  imap (fun k p =>
          Chunk.mk (cid_of qid (start + S k)) qid (Candidate.relevance p.1)
            (Candidate.url p.1) p.2)
       rc.

(** The chunks and the record of the [qi]-th selected query, numbered from
    1, and whether the query survives the re-validation. *)
Definition query_chunks (results : gmap string (option string)) (qi : nat)
    (entry : string * list Candidate.t) : list Chunk.t :=
  numbered_chunks (qid_of qi) 0
    (resolved_candidates results (selected entry.2)).

Definition query_record (results : gmap string (option string)) (qi : nat)
    (entry : string * list Candidate.t) : EvalQuery.t :=
  EvalQuery.mk (qid_of qi) entry.1
    (Chunk.id <$> filter chunk_relevant (query_chunks results qi entry))
    (Dict.comprehension Chunk.id Chunk.relevance
       (query_chunks results qi entry))
    (Chunk.id <$> query_chunks results qi entry).

Definition kept (results : gmap string (option string))
    (entry : string * list Candidate.t) : Prop :=
  MIN_POSITIVES <= resolved_positives results entry.

#[global] Instance kept_dec results entry : Decision (kept results entry).
Proof. unfold kept. apply _. Defined.

(** The assembly written query by query, without the shared counter: the
    kept queries from index [qi] on, and their chunks. *)
Fixpoint assemble_from (results : gmap string (option string)) (qi : nat)
    (gq : list (string * list Candidate.t))
  : list EvalQuery.t * list Chunk.t :=
  match gq with
  | [] => ([], [])
  | entry :: rest =>
      let '(qs, cs) := assemble_from results (S qi) rest in
      if decide (kept results entry)
      then (query_record results qi entry :: qs,
            query_chunks results qi entry ++ cs)
      else (qs, cs)
  end.

(** No selected query from index [qi] on has a counter yet. *)
Definition fresh_from (qi : nat) (st : state) : Prop :=
  forall j, (qi <= j)%nat -> chunk_counter st !! qid_of j = None.

(** ** The embedding stage

    [model.encode] is an external model: [encode] gives the rows of the
    array it returns, of an abstract type [vec]. Indexing an array beyond
    its last row raises [IndexError]; the stage returns [None] then. *)

Section Embedding.

Variable vec : Type.
Variable encode : list string -> list vec.

(** [[c["code"] for c in chunks_raw] + [q["query"] for q in queries_raw]] *)
Definition texts_to_embed (chunks_raw : list Chunk.t)
    (queries_raw : list EvalQuery.t) : list string :=
  (Chunk.code <$> chunks_raw) ++ (EvalQuery.query <$> queries_raw).

(** [for i, x in enumerate(items): out.append({..., "embedding":
    embs[i].tolist()})], from index [i] on. *)
Fixpoint attach {A B} (f : A -> B) (embs : list vec) (i : nat)
    (items : list A) : option (list (B * vec)) :=
  match items with
  | [] => Some []
  | x :: rest =>
      v ← embs !! i;
      out ← attach f embs (S i) rest;
      Some ((f x, v) :: out)
  end.

Definition chunk_out (c : Chunk.t) : ChunkOut.t :=
  ChunkOut.mk (Chunk.id c) (Chunk.query_id c) (Chunk.relevance c)
    (Chunk.code c).

Definition embed_stage (chunks_raw : list Chunk.t)
    (queries_raw : list EvalQuery.t)
  : option (list (ChunkOut.t * vec) * list (EvalQuery.t * vec)) :=
  let embeddings := encode (texts_to_embed chunks_raw queries_raw) in
  let n_chunks := Z.of_nat (length chunks_raw) in
  let chunk_embeddings := Py.slice embeddings None (Some n_chunks) in
  let query_embeddings := Py.slice embeddings (Some n_chunks) None in
  chunks_out ← attach chunk_out chunk_embeddings O chunks_raw;
  queries_out ← attach (fun q : EvalQuery.t => q) query_embeddings O
                  queries_raw;
  Some (chunks_out, queries_out).

End Embedding.

Arguments texts_to_embed chunks_raw queries_raw : assert.
Arguments attach {vec A B} f embs i items.
Arguments embed_stage {vec} encode chunks_raw queries_raw.

(** Two chunks and one query, as the assembler leaves them. *)
Definition sample_chunks_raw : list Chunk.t :=
  [ Chunk.mk "q_00_c01" "q_00" 3 "https://github.com/o/r/blob/abc/a.py"
      "def a(): return 1";
    Chunk.mk "q_00_c02" "q_00" 3 "https://github.com/o/r/blob/abc/b.py"
      "def b(): return 22" ].

Definition sample_queries_raw : list EvalQuery.t :=
  [ EvalQuery.mk "q_00" "parse json" ["q_00_c01"; "q_00_c02"]
      [("q_00_c01", 3); ("q_00_c02", 3)] ["q_00_c01"; "q_00_c02"] ].
(** * Properties *)

(** ** The built-ins on small inputs *)

Example slice_neg : Py.slice [1;2;3;4;5] None (Some (-1)) = [1;2;3;4].
Proof. reflexivity. Qed.
Example slice_neg_far : Py.slice [1;2;3] None (Some (-7)) = [].
Proof. reflexivity. Qed.
Example slice_mid : Py.slice [1;2;3;4;5] (Some 1) (Some 3) = [2;3].
Proof. reflexivity. Qed.
Example slice_rev : Py.slice [1;2;3;4;5] (Some 3) (Some 1) = [].
Proof. reflexivity. Qed.
Example int_ok : Py.int 4300 " -1_0 " = Return (-10).
Proof. reflexivity. Qed.
Example int_bad : Py.int 4300 "abc" = Raise ValueError.
Proof. reflexivity. Qed.
Example int_bad_us : Py.int 4300 "1__0" = Raise ValueError.
Proof. reflexivity. Qed.
Example int_form_feed : Py.int 4300 (String "012" "3") = Return 3.
Proof. reflexivity. Qed.
Example int_nbsp : Py.int 4300 (String "160" "3") = Return 3.
Proof. reflexivity. Qed.
Example int_bad_fs : Py.int 4300 (String "028" "3") = Raise ValueError.
Proof. reflexivity. Qed.
Example strip_fs : Py.strip (String "028" "3") = "3".
Proof. reflexivity. Qed.
Example fmt_3 : Py.fmt_02d 3 = "03".
Proof. reflexivity. Qed.
Example fmt_12 : Py.fmt_02d 12 = "12".
Proof. reflexivity. Qed.
Example fmt_123 : Py.fmt_02d 123 = "123".
Proof. reflexivity. Qed.
Example splitlines_ex :
  Py.splitlines (String "a" (String "013" (String "010" (String "b"
    (String "010" (String "010" "c")))))) = ["a"; "b"; ""; "c"].
Proof. reflexivity. Qed.
Example strip_ex : Py.strip "  a b  " = "a b".
Proof. reflexivity. Qed.
Example match_range :
  Re.match_blob_url "https://github.com/o/r/blob/abc/d/f.py#L10-L30"
  = Some ("o", "r", "abc", "d/f.py", Some "10", Some "30").
Proof. reflexivity. Qed.
Example match_single :
  Re.match_blob_url "https://github.com/o/r/blob/abc/d/f.py#L7"
  = Some ("o", "r", "abc", "d/f.py", Some "7", None).
Proof. reflexivity. Qed.
Example match_plain :
  Re.match_blob_url "https://github.com/o/r/blob/abc/d/f.py"
  = Some ("o", "r", "abc", "d/f.py", None, None).
Proof. reflexivity. Qed.
Example match_junk_fragment :
  Re.match_blob_url "https://github.com/o/r/blob/abc/f.py#L10-L"
  = Some ("o", "r", "abc", "f.py#L10-L", None, None).
Proof. reflexivity. Qed.
Example match_tree :
  Re.match_blob_url "https://github.com/o/r/tree/abc/f.py" = None.
Proof. reflexivity. Qed.

(** ** Slices *)

Lemma slice_index_nonneg n i : 0 <= i -> Py.slice_index n i = Z.min n i.
Proof. intros H. unfold Py.slice_index. destruct (Z.ltb_spec i 0); lia. Qed.

Lemma slice_index_neg n i : i < 0 -> Py.slice_index n i = Z.max 0 (n + i).
Proof. intros H. unfold Py.slice_index. destruct (Z.ltb_spec i 0); lia. Qed.

(** [l[:k]] with [0 <= k] is [take k l]. *)
Lemma slice_to_nonneg {A} (l : list A) k :
  0 <= k -> Py.slice l None (Some k) = take (Z.to_nat k) l.
Proof.
  intros Hk. unfold Py.slice. rewrite slice_index_nonneg by done.
  rewrite Z.sub_0_r. simpl. rewrite drop_0.
  destruct (Z.le_ge_cases k (Z.of_nat (length l))).
  - by rewrite Z.min_r.
  - rewrite Z.min_l by done. rewrite Nat2Z.id.
    rewrite !take_ge; [done | lia | lia].
Qed.

(** [l[:k]] with [k < 0] drops the last [-k] elements. *)
Lemma slice_to_neg {A} (l : list A) k :
  k < 0 -> Py.slice l None (Some k) = take (length l - Z.to_nat (- k)) l.
Proof.
  intros Hk. unfold Py.slice. rewrite slice_index_neg by done.
  rewrite Z.sub_0_r. simpl. rewrite drop_0. f_equal. lia.
Qed.

Lemma slice_to_prefix {A} (l : list A) k :
  Py.slice l None (Some k) `prefix_of` l.
Proof.
  unfold Py.slice. simpl. rewrite drop_0. apply prefix_take.
Qed.

(** ** Candidate sampling *)

Lemma positive_negative_split (cs : list Candidate.t) :
  (length (filter positive cs) + length (filter negative cs))%nat = length cs.
Proof.
  induction cs as [|c cs IH]; [done|].
  rewrite !filter_cons. unfold positive, negative in *.
  repeat case_decide; simpl; lia.
Qed.

(** All positives are kept, in order, at the front of the sample. *)
Lemma selected_positives_prefix cs : filter positive cs `prefix_of` selected cs.
Proof. unfold selected. by apply prefix_app_r. Qed.

(** The kept negatives are a prefix of the negatives in feed order. *)
Lemma selected_negatives_prefix cs :
  exists kept, selected cs = filter positive cs ++ kept
               /\ kept `prefix_of` filter negative cs.
Proof. eexists. split; [reflexivity|]. apply slice_to_prefix. Qed.

(** With at most [MAX_CANDIDATES] positives the sample has the size the
    sampling rule gives. *)
Lemma selected_length_within_cap cs :
  Z.of_nat (length (filter positive cs)) <= MAX_CANDIDATES ->
  Z.of_nat (length (selected cs))
  = Z.min (Z.of_nat (length (filter positive cs))
           + Z.max 0 (MAX_CANDIDATES - Z.of_nat (length (filter positive cs))))
          (Z.of_nat (length cs)).
Proof.
  intros Hcap. unfold selected.
  rewrite slice_to_nonneg by lia.
  rewrite length_app, length_take.
  pose proof (positive_negative_split cs). lia.
Qed.

(** Beyond the cap the slice bound is negative and counts from the end of
    the negatives. *)
Lemma selected_length_over_cap cs :
  MAX_CANDIDATES < Z.of_nat (length (filter positive cs)) ->
  Z.of_nat (length (selected cs))
  = Z.of_nat (length (filter positive cs))
    + Z.max 0 (Z.of_nat (length (filter negative cs))
               - (Z.of_nat (length (filter positive cs)) - MAX_CANDIDATES)).
Proof.
  intros Hcap. unfold selected.
  rewrite slice_to_neg by lia.
  rewrite length_app, length_take. lia.
Qed.

(** C1, at a query with more positives than [MAX_CANDIDATES]: the script
    keeps the thirteen positives and also the first negative, fourteen
    candidates, where the sampling rule (negative budget clamped at zero)
    gives thirteen and no negative. *)
Lemma C1_selected_over_cap :
  let cs := over_cap_candidates in
  length (filter positive cs) = 13%nat
  /\ selected cs = filter positive cs ++ [Candidate.mk "n1" 0]
  /\ Z.of_nat (length (selected cs)) = 14
  /\ Z.min (Z.of_nat (length (filter positive cs))
            + Z.max 0 (MAX_CANDIDATES - Z.of_nat (length (filter positive cs))))
           (Z.of_nat (length cs)) = 13.
Proof. vm_compute. repeat split; reflexivity. Qed.

(** ** Annotation loading *)

Lemma append_loaded_new {V} (d : list (string * list V)) k x :
  exists cs, Dict.get (Dict.append d k x) k = Some cs /\ x ∈ cs.
Proof.
  induction d as [|[k' v] d IH]; simpl.
  - rewrite decide_True by done. eexists. split; [done|]. by apply list_elem_of_singleton.
  - destruct (decide (k' = k)) as [->|Hne]; simpl.
    + rewrite decide_True by done. eexists. split; [done|].
      apply elem_of_app. right. by apply list_elem_of_singleton.
    + rewrite decide_False by done. apply IH.
Qed.

Lemma append_loaded_old {V} (d : list (string * list V)) k x q c :
  (exists cs, Dict.get d q = Some cs /\ c ∈ cs) ->
  exists cs, Dict.get (Dict.append d k x) q = Some cs /\ c ∈ cs.
Proof.
  induction d as [|[k' v] d IH]; simpl; intros (cs & Hget & Hin).
  - done.
  - destruct (decide (k' = k)) as [->|Hne]; simpl.
    + destruct (decide (k = q)) as [->|Hq].
      * simplify_eq. eexists. split; [done|]. set_solver.
      * eauto.
    + destruct (decide (k' = q)) as [->|Hq]; [eauto|].
      apply IH. eauto.
Qed.

Lemma int_raises_ValueError m s e : Py.int m s = Raise e -> e = ValueError.
Proof.
  unfold Py.int. repeat case_match; intros; simplify_eq; done.
Qed.

Lemma relevance_of_raises_ValueError m r e :
  relevance_of m r = Raise e -> e = ValueError.
Proof.
  unfold relevance_of. case_match; [apply int_raises_ValueError | done].
Qed.

Lemma group_rows_ok m rows d :
  (forall r, r ∈ rows -> exists z, relevance_of m r = Return z) ->
  exists bq, group_rows m rows d = Return bq
    /\ (forall q c, loaded d q c -> loaded bq q c)
    /\ (forall r, r ∈ rows -> exists z,
          relevance_of m r = Return z
          /\ loaded bq (Row.Query r) (Candidate.mk (Row.GitHubUrl r) z)).
Proof.
  revert d. induction rows as [|r rows IH]; intros d Hok; simpl.
  - eexists. split; [done|]. split; [done|]. intros r Hr. by apply elem_of_nil in Hr.
  - destruct (Hok r) as [z Hz]; [set_solver|].
    rewrite Hz. simpl.
    destruct (IH (Dict.append d (Row.Query r) (Candidate.mk (Row.GitHubUrl r) z)))
      as (bq & Hbq & Hold & Hnew); [set_solver|].
    exists bq. split; [done|]. split.
    + intros q c Hl. apply Hold. by apply append_loaded_old.
    + intros r' Hr'. apply elem_of_cons in Hr' as [->|Hr'].
      * exists z. split; [done|]. apply Hold. apply append_loaded_new.
      * by apply Hnew.
Qed.

Lemma group_rows_raises m rows d r :
  r ∈ rows -> relevance_of m r = Raise ValueError ->
  group_rows m rows d = Raise ValueError.
Proof.
  revert d. induction rows as [|r' rows IH]; intros d Hin Hbad.
  - by apply elem_of_nil in Hin.
  - simpl. destruct (relevance_of m r') as [z|e] eqn:Hr'; simpl.
    + apply elem_of_cons in Hin as [->|Hin]; [congruence|]. by apply IH.
    + by rewrite (relevance_of_raises_ValueError _ _ _ Hr').
Qed.

(** The separators 28 to 31 are whitespace for [str.strip] but not for
    [int]: a field made of one of them and a digit aborts the load. *)
Example load_separator_relevance_raises :
  load 4300
    [Row.mk "Python" "parse json" "https://github.com/o/r/blob/abc/f.py"
       (Some (String "028" "3"))]
  = Raise ValueError.
Proof. reflexivity. Qed.

(** C3 as stated fails: a Python row whose relevance is [abc] makes the
    load raise instead of storing relevance 0. *)
Lemma C3_malformed_relevance_raises :
  load 4300
    [Row.mk "Python" "parse json" "https://github.com/o/r/blob/abc/f.py"
       (Some "abc")]
  = Raise ValueError.
Proof. reflexivity. Qed.

(** C3, amended: an empty or missing relevance field is read as 0, any other
    field is read by [int]; when every Python row's field reads, the load
    succeeds and stores each Python row's candidate under its query; when
    some Python row has a non-empty field that [int] rejects, the load
    raises [ValueError]. *)
Theorem C3_load_relevance (m : nat) (rows : list Row.t) :
  (forall r, Row.Relevance r = None \/ Row.Relevance r = Some "" ->
     relevance_of m r = Return 0)
  /\ (forall r s, Row.Relevance r = Some s -> s <> "" ->
        relevance_of m r = Py.int m s)
  /\ ((forall r, r ∈ py_rows rows -> exists z, relevance_of m r = Return z) ->
      exists bq, load m rows = Return bq
        /\ forall r, r ∈ py_rows rows -> exists z,
             relevance_of m r = Return z
             /\ loaded bq (Row.Query r) (Candidate.mk (Row.GitHubUrl r) z))
  /\ (forall r s, r ∈ py_rows rows -> Row.Relevance r = Some s -> s <> "" ->
        Py.int m s = Raise ValueError -> load m rows = Raise ValueError).
Proof.
  split; [|split; [|split]].
  - intros r [H|H]; unfold relevance_of; by rewrite H.
  - intros r s H Hs. unfold relevance_of. rewrite H. simpl.
    by destruct s.
  - intros Hok. destruct (group_rows_ok m (py_rows rows) [] Hok)
      as (bq & Hbq & _ & Hnew). eauto.
  - intros r s Hin Hr Hs Hbad. unfold load.
    apply (group_rows_raises m _ _ r); [done|].
    unfold relevance_of. rewrite Hr. simpl. by destruct s.
Qed.

Lemma C3_load_relevance_witness :
  let rows :=
    [Row.mk "Python" "parse json" "https://github.com/o/r/blob/abc/f.py"
       (Some "");
     Row.mk "Python" "parse json" "https://github.com/o/r/blob/abc/g.py"
       (Some "3");
     Row.mk "Java" "parse json" "https://github.com/o/r/blob/abc/h.java"
       (Some "abc")] in
  let bad :=
    Row.mk "Python" "parse json" "https://github.com/o/r/blob/abc/i.py"
      (Some (String "028" "3")) in
  (exists bq, load 4300 rows = Return bq)
  /\ load 4300 (rows ++ [bad]) = Raise ValueError.
Proof.
  intros rows bad. split.
  - destruct (C3_load_relevance 4300 rows) as (_ & _ & Hok & _).
    destruct Hok as (bq & Hbq & _).
    + intros r Hr. vm_compute in Hr.
      apply elem_of_cons in Hr as [->|Hr]; [by exists 0|].
      apply elem_of_cons in Hr as [->|Hr]; [by exists 3|].
      by apply elem_of_nil in Hr.
    + by exists bq.
  - destruct (C3_load_relevance 4300 (rows ++ [bad])) as (_ & _ & _ & Hbad).
    apply (Hbad bad (String "028" "3")).
    + vm_compute. apply elem_of_cons. right. apply elem_of_cons. right.
      apply elem_of_cons. by left.
    + reflexivity.
    + discriminate.
    + reflexivity.
Defined.

(** ** Integer literals and the URL pattern *)

Lemma digit_not_int_space c :
  Py.is_digit c = true -> Py.is_int_space c = false.
Proof. destruct c as [[] [] [] [] [] [] [] []]; vm_compute; congruence. Qed.

Lemma digit_not_sign c :
  Py.is_digit c = true ->
  (nat_of_ascii c =? 45)%nat = false /\ (nat_of_ascii c =? 43)%nat = false.
Proof. destruct c as [[] [] [] [] [] [] [] []]; vm_compute; intuition congruence. Qed.

Lemma digit_val_nonneg c : Py.is_digit c = true -> 0 <= Py.digit_val c.
Proof.
  unfold Py.is_digit, Py.digit_val. intros H.
  apply andb_true_iff in H as [H _]. apply Nat.leb_le in H. lia.
Qed.

Lemma lskip_digits s :
  str_forall Py.is_digit s = true -> Py.lskip Py.is_int_space s = s.
Proof.
  destruct s as [|c r]; [done|]. simpl. intros H.
  apply andb_true_iff in H as [H _]. by rewrite (digit_not_int_space _ H).
Qed.

Lemma rskip_digits s :
  str_forall Py.is_digit s = true -> Py.rskip Py.is_int_space s = s.
Proof.
  induction s as [|c r IH]; [done|]. simpl. intros H.
  apply andb_true_iff in H as [Hc Hr].
  rewrite (digit_not_int_space _ Hc). simpl. by rewrite IH.
Qed.

Lemma int_digits_nonneg s : forall b acc n k v,
  0 <= acc -> Py.int_digits b acc n s = Some (k, v) -> 0 <= v.
Proof.
  induction s as [|c r IH]; intros b acc n k v Hacc; simpl.
  - destruct b; intros; simplify_eq; done.
  - destruct (Py.is_digit c) eqn:Hd.
    + apply IH. pose proof (digit_val_nonneg _ Hd). lia.
    + destruct ((nat_of_ascii c =? 95)%nat && b); [by apply IH | done].
Qed.

(** [int] of a run of digits is never negative. *)
Lemma int_digits_string_nonneg m d v :
  str_forall Py.is_digit d = true -> Py.int m d = Return v -> 0 <= v.
Proof.
  intros Hd. unfold Py.int.
  rewrite (lskip_digits _ Hd), (rskip_digits _ Hd).
  destruct d as [|c r].
  - simpl. done.
  - simpl in Hd. apply andb_true_iff in Hd as [Hc _].
    destruct (digit_not_sign _ Hc) as [-> ->].
    destruct (Py.int_digits false 0 0 (String c r)) as [[k w]|] eqn:Hi; [|done].
    apply int_digits_nonneg in Hi; [|done].
    case_match; intros; simplify_eq; done.
Qed.

Lemma span_forall P s a b : Re.span P s = (a, b) -> str_forall P a = true.
Proof.
  revert a b. induction s as [|c r IH]; intros a b; simpl.
  - intros; simplify_eq; done.
  - destruct (P c) eqn:Hc.
    + destruct (Re.span P r) as [a' b'] eqn:Hs. intros; simplify_eq.
      simpl. rewrite Hc. simpl. by eapply IH.
    + intros; simplify_eq; done.
Qed.

Lemma span_rest_forall Q P s a b :
  Re.span P s = (a, b) -> str_forall Q s = true -> str_forall Q b = true.
Proof.
  revert a b. induction s as [|c r IH]; intros a b; simpl.
  - intros; simplify_eq; done.
  - destruct (P c).
    + destruct (Re.span P r) as [a' b'] eqn:Hs. intros ? H; simplify_eq.
      apply andb_true_iff in H as [_ H]. by eapply IH.
    + intros; simplify_eq; done.
Qed.

Lemma strip_prefix_forall Q p s r :
  Re.strip_prefix p s = Some r -> str_forall Q s = true ->
  str_forall Q r = true.
Proof.
  revert s. induction p as [|a p IH]; intros s; simpl.
  - intros; simplify_eq; done.
  - destruct s as [|b s]; [done|]. case_decide as Hab; [|done].
    intros Hp Hs. simpl in Hs. apply andb_true_iff in Hs as [_ Hs]. eauto.
Qed.

Lemma match_fragment_digits s l1 l2 :
  Re.match_fragment s = Some (l1, l2) -> opt_digits l1 /\ opt_digits l2.
Proof.
  unfold Re.match_fragment, opt_digits.
  destruct (Re.strip_prefix "#L" s) as [r|]; [|by case_match; naive_solver].
  destruct (Re.span Py.is_digit r) as [d1 r1] eqn:H1.
  pose proof (span_forall _ _ _ _ H1) as Hd1.
  destruct (Re.strip_prefix "-L" r1) as [r2|].
  - destruct (Re.span Py.is_digit r2) as [d2 r3] eqn:H2.
    pose proof (span_forall _ _ _ _ H2) as Hd2.
    repeat case_match; naive_solver.
  - repeat case_match; naive_solver.
Qed.

Lemma match_fragment_no_hash s l1 l2 :
  Re.match_fragment s = Some (l1, l2) -> no_hash s = true ->
  l1 = None /\ l2 = None.
Proof.
  unfold Re.match_fragment, no_hash.
  destruct s as [|c s]; simpl; [naive_solver|].
  case_decide as Hc; [subst c; done|].
  repeat case_match; naive_solver.
Qed.

Lemma match_path_digits s p l1 l2 :
  Re.match_path s = Some (p, l1, l2) -> opt_digits l1 /\ opt_digits l2.
Proof.
  revert p. induction s as [|c r IH]; intros p; simpl; [done|].
  destruct (Py.is_lf c); [done|].
  destruct (Re.match_fragment r) as [[a b]|] eqn:Hf.
  - intros; simplify_eq. by eapply match_fragment_digits.
  - destruct (Re.match_path r) as [[[p' a] b]|]; [|done].
    intros; simplify_eq. by eapply IH.
Qed.

Lemma match_path_no_hash s p l1 l2 :
  Re.match_path s = Some (p, l1, l2) -> no_hash s = true ->
  l1 = None /\ l2 = None.
Proof.
  revert p. induction s as [|c r IH]; intros p; simpl; [done|].
  destruct (Py.is_lf c); [done|].
  intros H Hn. apply andb_true_iff in Hn as [_ Hn]. fold (no_hash r) in Hn.
  destruct (Re.match_fragment r) as [[a b]|] eqn:Hf.
  - simplify_eq. by eapply match_fragment_no_hash.
  - destruct (Re.match_path r) as [[[p' a] b]|]; [|done].
    simplify_eq. by eapply IH.
Qed.

(** What [match_blob_url] returns comes from [match_path] on a suffix. *)
Lemma match_blob_url_path url o r sha p l1 l2 :
  Re.match_blob_url url = Some (o, r, sha, p, l1, l2) ->
  exists rest, Re.match_path rest = Some (p, l1, l2)
               /\ (no_hash url = true -> no_hash rest = true).
Proof.
  unfold Re.match_blob_url, mbind, option_bind. intros H.
  destruct (Re.strip_prefix _ url) as [r0|] eqn:H0; [|done].
  destruct (Re.span Re.not_slash r0) as [owner r1] eqn:H1.
  destruct (Py.is_empty owner); [done|].
  destruct (Re.strip_prefix "/" r1) as [r2|] eqn:H2; [|done].
  destruct (Re.span Re.not_slash r2) as [repo r3] eqn:H3.
  destruct (Py.is_empty repo); [done|].
  destruct (Re.strip_prefix "/blob/" r3) as [r4|] eqn:H4; [|done].
  destruct (Re.span Re.not_slash r4) as [sha' r5] eqn:H5.
  destruct (Py.is_empty sha'); [done|].
  destruct (Re.strip_prefix "/" r5) as [r6|] eqn:H6; [|done].
  destruct (Re.match_path r6) as [[[p' a] b]|] eqn:H7; [|done].
  simplify_eq. exists r6. split; [done|].
  unfold no_hash. intros Hn.
  eapply strip_prefix_forall; [exact H6|].
  eapply span_rest_forall; [exact H5|].
  eapply strip_prefix_forall; [exact H4|].
  eapply span_rest_forall; [exact H3|].
  eapply strip_prefix_forall; [exact H2|].
  eapply span_rest_forall; [exact H1|].
  eapply strip_prefix_forall; [exact H0|]. done.
Qed.

(** A captured line number is never the empty string, and there is no end
    line without a start line. *)
Lemma is_empty_false_ne s : Py.is_empty s = false -> s <> "".
Proof. by destruct s. Qed.

Lemma match_fragment_captures s l1 l2 :
  Re.match_fragment s = Some (l1, l2) ->
  (forall d, l1 = Some d -> d <> "") /\ (forall d, l2 = Some d -> d <> "")
  /\ (l1 = None -> l2 = None).
Proof.
  unfold Re.match_fragment.
  destruct (Re.strip_prefix "#L" s) as [r|]; [|by case_match; naive_solver].
  destruct (Re.span Py.is_digit r) as [d1 r1].
  destruct (Py.is_empty d1) eqn:H1; [by case_match; naive_solver|].
  apply is_empty_false_ne in H1.
  destruct (Re.strip_prefix "-L" r1) as [r2|].
  - destruct (Re.span Py.is_digit r2) as [d2 r3].
    destruct (Py.is_empty d2) eqn:H2; simpl.
    + repeat case_match; naive_solver.
    + apply is_empty_false_ne in H2. repeat case_match; naive_solver.
  - repeat case_match; naive_solver.
Qed.

Lemma match_path_captures s p l1 l2 :
  Re.match_path s = Some (p, l1, l2) ->
  (forall d, l1 = Some d -> d <> "") /\ (forall d, l2 = Some d -> d <> "")
  /\ (l1 = None -> l2 = None).
Proof.
  revert p. induction s as [|c r IH]; intros p; simpl; [done|].
  destruct (Py.is_lf c); [done|].
  destruct (Re.match_fragment r) as [[a b]|] eqn:Hf.
  - intros; simplify_eq. by eapply match_fragment_captures.
  - destruct (Re.match_path r) as [[[p' a] b]|]; [|done].
    intros; simplify_eq. by eapply IH.
Qed.

(** ** Snippet resolution *)

Lemma github_url_to_raw_inv m url raw s e :
  github_url_to_raw m url = Return (raw, s, e) ->
  exists o r sha p l1 l2,
    Re.match_blob_url url = Some (o, r, sha, p, l1, l2)
    /\ (if truthy l1 then Py.int m (default "" l1) else Return 1) = Return s
    /\ (if truthy l2 then Py.int m (default "" l2) else Return (s + 40))
       = Return e.
Proof.
  unfold github_url_to_raw.
  destruct (Re.match_blob_url url) as [[[[[[o r] sha] p] l1] l2]|]; [|done].
  intros H. exists o, r, sha, p, l1, l2. split; [done|].
  unfold mbind, res_mbind, res_bind in H.
  destruct (if truthy l1 then _ else _) as [s'|] eqn:Hs; [|done].
  destruct (if truthy l2 then _ else _) as [e'|] eqn:He in H; [|done].
  simplify_eq. by rewrite He.
Qed.

(** Parsed line numbers are never negative. *)
Lemma github_url_to_raw_nonneg m url raw s e :
  github_url_to_raw m url = Return (raw, s, e) -> 0 <= s /\ 0 <= e.
Proof.
  intros H. apply github_url_to_raw_inv in H
    as (o & r & sha & p & l1 & l2 & Hm & Hs & He).
  apply match_blob_url_path in Hm as (rest & Hp & _).
  apply match_path_digits in Hp as [H1 H2].
  assert (0 <= s) as Hs0.
  { destruct l1 as [d|]; simpl in Hs.
    - destruct (Py.is_empty d); simpl in Hs; [by simplify_eq|].
      eapply int_digits_string_nonneg; [|exact Hs]. by apply H1.
    - by simplify_eq. }
  split; [done|].
  destruct l2 as [d|]; simpl in He.
  - destruct (Py.is_empty d); simpl in He; [simplify_eq; lia|].
    eapply int_digits_string_nonneg; [|exact He]. by apply H2.
  - simplify_eq. lia.
Qed.

(** A locator that parses: the raw URL is made of the four captured parts,
    each captured line number is a non-empty run of digits read by [int],
    and a number that was not captured takes its default. *)
Lemma github_url_to_raw_groups m url raw s e :
  github_url_to_raw m url = Return (raw, s, e) ->
  exists o r sha p l1 l2,
    Re.match_blob_url url = Some (o, r, sha, p, l1, l2)
    /\ raw = raw_url o r sha p
    /\ opt_digits l1 /\ opt_digits l2
    /\ match l1 with
       | Some d => d <> "" /\ Py.int m d = Return s
       | None => s = 1
       end
    /\ match l2 with
       | Some d => d <> "" /\ Py.int m d = Return e
       | None => e = s + 40
       end.
Proof.
  intros H. pose proof (github_url_to_raw_inv _ _ _ _ _ H)
    as (o & r & sha & p & l1 & l2 & Hm & Hs & He).
  exists o, r, sha, p, l1, l2. split; [done|].
  split.
  { unfold github_url_to_raw in H. rewrite Hm in H.
    unfold mbind, res_mbind, res_bind in H. rewrite Hs, He in H.
    by simplify_eq. }
  destruct (match_blob_url_path _ _ _ _ _ _ _ Hm) as (rest & Hp & _).
  destruct (match_path_digits _ _ _ _ Hp) as [Hd1 Hd2].
  destruct (match_path_captures _ _ _ _ Hp) as (Hn1 & Hn2 & _).
  split; [done|]. split; [done|]. split.
  - destruct l1 as [d|]; [|simpl in Hs; by simplify_eq].
    pose proof (Hn1 d eq_refl) as Hne. split; [done|].
    destruct d; [done|]. exact Hs.
  - destruct l2 as [d|]; [|simpl in He; by simplify_eq].
    pose proof (Hn2 d eq_refl) as Hne. split; [done|].
    destruct d; [done|]. exact He.
Qed.

(** [fetch_code] in one equation: no request when the locator does not
    parse, one request otherwise, and never an exception. *)
Lemma fetch_code_spec m net url :
  fetch_code m net url =
  match github_url_to_raw m url with
  | Raise _ => ([], Return None)
  | Return (raw, s, e) =>
      ([raw],
       Return (match net raw with
               | Some text => finish (extract (Py.splitlines text) s e)
               | None => None
               end))
  end.
Proof.
  unfold fetch_code, try_except, mbind, io_mbind, io_bind, io_lift, urlopen,
    mret, io_mret, io_ret.
  destruct (github_url_to_raw m url) as [[[raw s] e]|]; [|done].
  by destruct (net raw).
Qed.

(** The slice [l[lo:hi]] for bounds that are not negative. *)
Lemma slice_nonneg_lookup {A} (l : list A) lo hi :
  0 <= lo -> 0 <= hi ->
  let n := Z.of_nat (length l) in
  length (Py.slice l (Some lo) (Some hi))
  = Z.to_nat (Z.min n hi - Z.min n lo)
  /\ forall k, (k < length (Py.slice l (Some lo) (Some hi)))%nat ->
       Py.slice l (Some lo) (Some hi) !! k = l !! (Z.to_nat lo + k)%nat.
Proof.
  intros Hlo Hhi n. unfold Py.slice. fold n.
  rewrite !slice_index_nonneg by done.
  rewrite length_take, length_drop. split; [lia|].
  intros k Hk. rewrite lookup_take_lt by lia. rewrite lookup_drop.
  f_equal. lia.
Qed.

Lemma extract_empty_range lines s e :
  0 <= s -> 0 <= e -> e < s -> extract lines s e = "".
Proof.
  intros Hs He Hlt. unfold extract.
  destruct (slice_nonneg_lookup lines (Z.max 0 (s - 1))
              (Z.min (Z.of_nat (length lines)) e)) as [Hlen _]; [lia..|].
  destruct (Py.slice lines _ _); [done|]. simpl in Hlen. lia.
Qed.

(** C4: [fetch_code] always returns, a text or [None], whatever the URL and
    whatever the network answers; and when the parsed range ends before it
    starts (as in [#L10-L5]) the result is [None]. *)
Theorem C4_fetch_code_total (m : nat) (net : string -> option string)
    (url : string) :
  (exists r, (fetch_code m net url).2 = Return r)
  /\ (forall raw s e,
        github_url_to_raw m url = Return (raw, s, e) -> e < s ->
        (fetch_code m net url).2 = Return None).
Proof.
  split.
  - rewrite fetch_code_spec.
    destruct (github_url_to_raw m url) as [[[raw s] e]|]; simpl; eauto.
  - intros raw s e Hp Hlt. rewrite fetch_code_spec, Hp. simpl.
    destruct (github_url_to_raw_nonneg _ _ _ _ _ Hp) as [Hs He].
    destruct (net raw); [|done].
    by rewrite extract_empty_range.
Qed.

Lemma C4_fetch_code_total_witness :
  (fetch_code 4300
     (fun _ => Some "def parse_json(text):
    return json.loads(text)
# a file with three lines")
     "https://github.com/o/r/blob/abc/f.py#L10-L5").2 = Return None.
Proof.
  apply (proj2 (C4_fetch_code_total 4300 _ _)
           "https://raw.githubusercontent.com/o/r/abc/f.py" 10 5).
  - reflexivity.
  - lia.
Defined.

(** C5: for a locator that parses, the requested line range is the one the
    locator writes: the start is [int] of the digits captured after [#L]
    and the end [int] of the digits captured after [-L]; the start defaults
    to line 1 and the end to start+40 when the pattern captured no number
    (in particular for a URL without [#]: lines 1..41). The file requested
    is the raw URL of the captured owner, repository, revision and path, and
    when it is fetched, the text cut out is the join of the lines numbered
    [max 1 start .. min lineCount end], counting from 1, which [fetch_code]
    then trims, rejects under 30 characters and caps at 2000. *)
Theorem C5_line_range_clamped (m : nat) (url raw : string) (s e : Z) :
  github_url_to_raw m url = Return (raw, s, e) ->
  (exists o r sha p l1 l2,
     Re.match_blob_url url = Some (o, r, sha, p, l1, l2)
     /\ raw = raw_url o r sha p
     /\ match l1 with
        | Some d =>
            d <> "" /\ str_forall Py.is_digit d = true
            /\ Py.int m d = Return s
        | None => s = 1
        end
     /\ match l2 with
        | Some d =>
            d <> "" /\ str_forall Py.is_digit d = true
            /\ Py.int m d = Return e
        | None => e = s + 40
        end)
  /\ (forall o r sha p l1 l2,
        Re.match_blob_url url = Some (o, r, sha, p, l1, l2) ->
        (l1 = None -> s = 1) /\ (l2 = None -> e = s + 40)
        /\ (forall d, l1 = Some d -> Py.int m d = Return s)
        /\ (forall d, l2 = Some d -> Py.int m d = Return e))
  /\ (no_hash url = true -> s = 1 /\ e = 41)
  /\ forall net text, net raw = Some text ->
       let lines := Py.splitlines text in
       let first := Z.max 1 s in
       let last := Z.min (Z.of_nat (length lines)) e in
       exists range,
         extract lines s e = Py.join LF range
         /\ (fetch_code m net url).2 = Return (finish (Py.join LF range))
         /\ length range = Z.to_nat (last - first + 1)
         /\ forall k, (k < length range)%nat ->
              range !! k = line lines (first + Z.of_nat k).
Proof.
  intros Hp.
  pose proof (github_url_to_raw_nonneg _ _ _ _ _ Hp) as [Hs He].
  pose proof (github_url_to_raw_groups _ _ _ _ _ Hp)
    as (o & r & sha & p & l1 & l2 & Hm & Hraw & Hd1 & Hd2 & Hs' & He').
  split; [|split; [|split]].
  - exists o, r, sha, p, l1, l2. split; [done|]. split; [done|]. split.
    + destruct l1 as [d|]; [|done]. destruct Hs' as [Hne Hi].
      split; [done|]. split; [by apply Hd1 | done].
    + destruct l2 as [d|]; [|done]. destruct He' as [Hne Hi].
      split; [done|]. split; [by apply Hd2 | done].
  - intros o' r' sha' p' l1' l2' Hm'. rewrite Hm in Hm'. simplify_eq.
    split; [by intros ->|]. split; [by intros ->|].
    split; intros d ->; [by destruct Hs' | by destruct He'].
  - intros Hn. destruct (match_blob_url_path _ _ _ _ _ _ _ Hm)
      as (rest & Hpath & Hrest).
    destruct (match_path_no_hash _ _ _ _ Hpath (Hrest Hn)) as [-> ->].
    simpl in Hs', He'. subst s e. done.
  - intros net text Hnet lines first last.
    exists (Py.slice lines (Some (Z.max 0 (s - 1)))
              (Some (Z.min (Z.of_nat (length lines)) e))).
    split; [done|]. split.
    { rewrite fetch_code_spec, Hp, Hnet. done. }
    destruct (slice_nonneg_lookup lines (Z.max 0 (s - 1))
                (Z.min (Z.of_nat (length lines)) e)) as [Hlen Hlook]; [lia..|].
    split; [subst first last; lia|].
    intros k Hk. rewrite Hlook by done. unfold line.
    rewrite decide_True by (subst first; lia).
    f_equal. subst first. rewrite Hlen in Hk. lia.
Qed.

Lemma C5_line_range_clamped_witness :
  let text := "import json
def parse_json(text):
    return json.loads(text)
def dump_json(value):
    return json.dumps(value)" in
  let net := fun _ : string => Some text in
  (exists range,
     (fetch_code 4300 net "https://github.com/o/r/blob/abc/f.py").2
     = Return (finish (Py.join LF range))
     /\ length range = 5%nat)
  /\ (exists range,
        (fetch_code 4300 net "https://github.com/o/r/blob/abc/f.py#L2-L3").2
        = Return (finish (Py.join LF range))
        /\ range = ["def parse_json(text):"; "    return json.loads(text)"])
  /\ (exists range,
        (fetch_code 4300 net "https://github.com/o/r/blob/abc/f.py#L4-L90").2
        = Return (finish (Py.join LF range))
        /\ range = ["def dump_json(value):"; "    return json.dumps(value)"]).
Proof.
  intros text net. split; [|split].
  - destruct (C5_line_range_clamped 4300
                "https://github.com/o/r/blob/abc/f.py"
                "https://raw.githubusercontent.com/o/r/abc/f.py" 1 41)
      as (_ & _ & _ & H); [reflexivity|].
    destruct (H net text eq_refl) as (range & _ & Hf & Hl & _).
    exists range. split; [exact Hf | exact Hl].
  - destruct (C5_line_range_clamped 4300
                "https://github.com/o/r/blob/abc/f.py#L2-L3"
                "https://raw.githubusercontent.com/o/r/abc/f.py" 2 3)
      as (_ & _ & _ & H); [reflexivity|].
    destruct (H net text eq_refl) as (range & _ & Hf & Hl & Hk).
    exists range. split; [exact Hf|].
    vm_compute in Hl.
    destruct range as [|a [|b [|c range]]]; try discriminate Hl.
    pose proof (Hk 0%nat ltac:(simpl; lia)) as H0.
    pose proof (Hk 1%nat ltac:(simpl; lia)) as H1.
    vm_compute in H0, H1. by simplify_eq.
  - destruct (C5_line_range_clamped 4300
                "https://github.com/o/r/blob/abc/f.py#L4-L90"
                "https://raw.githubusercontent.com/o/r/abc/f.py" 4 90)
      as (_ & _ & _ & H); [reflexivity|].
    destruct (H net text eq_refl) as (range & _ & Hf & Hl & Hk).
    exists range. split; [exact Hf|].
    vm_compute in Hl.
    destruct range as [|a [|b [|c range]]]; try discriminate Hl.
    pose proof (Hk 0%nat ltac:(simpl; lia)) as H0.
    pose proof (Hk 1%nat ltac:(simpl; lia)) as H1.
    vm_compute in H0, H1. by simplify_eq.
Defined.

(** ** [sorted]: a stable sort *)

Section Sorted.
Context {A : Type} (key : A -> Z).

Lemma insert_by_perm x l : insert_by key x l ≡ₚ x :: l.
Proof.
  induction l as [|y l IH]; simpl; [done|].
  case_decide; [done|]. rewrite IH. apply Permutation_swap.
Qed.

Lemma sorted_perm l : sorted key l ≡ₚ l.
Proof.
  induction l as [|x l IH]; simpl; [done|].
  rewrite insert_by_perm. by rewrite IH.
Qed.

Lemma insert_by_sorted x l :
  StronglySorted (key_le key) l -> StronglySorted (key_le key) (insert_by key x l).
Proof.
  induction l as [|y l IH]; simpl; intros Hs.
  - repeat constructor.
  - apply StronglySorted_inv in Hs as [Hl Hy].
    case_decide as Hxy.
    + constructor; [by constructor|].
      constructor; [done|].
      eapply Forall_impl; [exact Hy|]. unfold key_le. intros; simpl in *; lia.
    + constructor; [by apply IH|].
      rewrite insert_by_perm. constructor; [unfold key_le; lia | done].
Qed.

Lemma sorted_sorted l : StronglySorted (key_le key) (sorted key l).
Proof.
  induction l as [|x l IH]; simpl; [constructor|]. by apply insert_by_sorted.
Qed.

(** Stability: elements with the same key keep their relative order. *)
Lemma insert_by_stable k x l :
  filter (fun a => key a = k) (insert_by key x l)
  = filter (fun a => key a = k) (x :: l).
Proof.
  induction l as [|y l IH]; simpl; [done|].
  case_decide as Hxy; [done|].
  rewrite filter_cons, IH, !filter_cons.
  repeat case_decide; try done; lia.
Qed.

Lemma sorted_stable k l :
  filter (fun a => key a = k) (sorted key l)
  = filter (fun a => key a = k) l.
Proof.
  induction l as [|x l IH]; simpl; [done|].
  by rewrite insert_by_stable, !filter_cons, IH.
Qed.

Lemma filter_split (P : A -> Prop) `{!forall a, Decision (P a)} l a x b :
  filter P l = a ++ x :: b ->
  exists l1 l2, l = l1 ++ x :: l2 /\ filter P l1 = a /\ filter P l2 = b.
Proof.
  revert a. induction l as [|y l IH]; intros a; [by destruct a|].
  rewrite filter_cons. case_decide as Hy.
  - destruct a as [|y' a]; simpl; intros Heq; injection Heq as -> Heq.
    + by exists [], l.
    + destruct (IH _ Heq) as (l1 & l2 & -> & <- & <-).
      exists (y' :: l1), l2. by rewrite filter_cons, decide_True.
  - intros Heq. destruct (IH _ Heq) as (l1 & l2 & -> & <- & <-).
    exists (y :: l1), l2. by rewrite filter_cons, decide_False.
Qed.

Lemma precedes_filter (P : A -> Prop) `{!forall a, Decision (P a)} l x y :
  precedes (filter P l) x y -> precedes l x y.
Proof.
  intros (a & b & c & Heq).
  apply filter_split in Heq as (l1 & r & -> & _ & Hr).
  apply filter_split in Hr as (l2 & l3 & -> & _ & _).
  by exists l1, l2, l3.
Qed.

Lemma filter_precedes (P : A -> Prop) `{!forall a, Decision (P a)} l x y :
  P x -> P y -> precedes l x y -> precedes (filter P l) x y.
Proof.
  intros Hx Hy (l1 & l2 & l3 & ->).
  exists (filter P l1), (filter P l2), (filter P l3).
  rewrite filter_app, filter_cons, decide_True by done.
  by rewrite filter_app, filter_cons, decide_True by done.
Qed.

(** In the sorted list, an earlier element has a smaller key, or the same
    key and an earlier place in the input. *)
Lemma sorted_precedes l x y :
  precedes (sorted key l) x y ->
  key x < key y \/ (key x = key y /\ precedes l x y).
Proof.
  intros Hp. pose proof Hp as (l1 & l2 & l3 & Heq).
  assert (key x <= key y) as Hle.
  { pose proof (sorted_sorted l) as Hs. rewrite Heq in Hs.
    apply StronglySorted_app_1_r in Hs.
    apply StronglySorted_inv in Hs as [_ Hall].
    rewrite Forall_forall in Hall. apply Hall.
    apply elem_of_app. right. by left. }
  destruct (decide (key x = key y)) as [Heqk|Hne]; [|left; lia].
  right. split; [done|].
  apply (precedes_filter (fun a => key a = key x)).
  rewrite <- sorted_stable.
  by apply filter_precedes.
Qed.
End Sorted.

Lemma precedes_take {A} (l : list A) n x y :
  precedes (take n l) x y -> precedes l x y.
Proof.
  intros (l1 & l2 & l3 & Heq). exists l1, l2, (l3 ++ drop n l).
  rewrite <- (take_drop n l) at 1. rewrite Heq.
  by simplify_list_eq.
Qed.

Lemma precedes_take_drop {A} (l : list A) n x y :
  x ∈ take n l -> y ∈ drop n l -> precedes l x y.
Proof.
  intros Hx Hy.
  apply list_elem_of_split in Hx as (a & b & Hx).
  apply list_elem_of_split in Hy as (c & d & Hy).
  exists a, (b ++ c), d.
  rewrite <- (take_drop n l), Hx, Hy.
  by simplify_list_eq.
Qed.

(** ** Query selection *)

Lemma good_queries_take bq :
  good_queries bq
  = take (Z.to_nat TARGET_QUERIES)
      (sorted (fun x => - n_positives x.2) (filter sufficient bq)).
Proof. unfold good_queries. by rewrite slice_to_nonneg. Qed.

(** C6: the selection has [TARGET_QUERIES] entries (all qualifying queries
    when there are fewer), each of them from the loaded mapping and with at
    least [MIN_POSITIVES] positives; every qualifying query left out ranks
    after every selected one, where a query ranks before another when it
    has more positives, or as many and was met earlier in the feed; and
    the selection is listed in that ranking. *)
Theorem C6_good_queries_top (bq : list (string * list Candidate.t)) :
  Z.of_nat (length (good_queries bq))
  = Z.min TARGET_QUERIES (Z.of_nat (length (filter sufficient bq)))
  /\ (forall x, x ∈ good_queries bq -> x ∈ bq /\ sufficient x)
  /\ (forall x y, x ∈ good_queries bq -> y ∈ bq -> sufficient y ->
        y ∉ good_queries bq -> ranks_before bq x y)
  /\ (forall x y, precedes (good_queries bq) x y -> ranks_before bq x y).
Proof.
  rewrite good_queries_take.
  set (key := fun x : string * list Candidate.t => - n_positives x.2).
  set (s := sorted key (filter sufficient bq)).
  assert (forall x y, precedes s x y -> ranks_before bq x y) as Hrank.
  { intros x y Hp. apply sorted_precedes in Hp as [Hlt|[Heq Hp]].
    - left. unfold key in Hlt. lia.
    - right. split; [unfold key in Heq; lia|].
      by apply precedes_filter in Hp. }
  split; [|split; [|split]].
  - rewrite length_take. subst s. rewrite (Permutation_length (sorted_perm key _)).
    unfold TARGET_QUERIES. lia.
  - intros x Hx. apply elem_of_take in Hx as (i & Hi & _).
    apply list_elem_of_lookup_2 in Hi. subst s.
    rewrite sorted_perm in Hi. apply list_elem_of_filter in Hi. tauto.
  - intros x y Hx Hy Hsuff Hny. apply Hrank.
    apply (precedes_take_drop _ (Z.to_nat TARGET_QUERIES)); [done|].
    assert (y ∈ s) as Hys.
    { subst s. rewrite sorted_perm. by apply list_elem_of_filter. }
    rewrite <- (take_drop (Z.to_nat TARGET_QUERIES) s) in Hys.
    apply elem_of_app in Hys as [Hys|Hys]; [by destruct Hny | done].
  - intros x y Hp. apply Hrank. by eapply precedes_take.
Qed.

Example good_queries_order :
  let a := ("a", [Candidate.mk "u1" 2; Candidate.mk "u2" 3; Candidate.mk "u3" 0]) in
  let b := ("b", [Candidate.mk "u1" 2; Candidate.mk "u4" 2; Candidate.mk "u5" 3]) in
  let c := ("c", [Candidate.mk "u6" 3; Candidate.mk "u7" 1; Candidate.mk "u8" 2]) in
  let d := ("d", [Candidate.mk "u9" 3; Candidate.mk "u1" 1]) in
  good_queries [a; b; c; d] = [b; a; c].
Proof. reflexivity. Qed.

Lemma C6_good_queries_top_witness :
  let a := ("a", [Candidate.mk "u1" 2; Candidate.mk "u2" 3; Candidate.mk "u3" 0]) in
  let b := ("b", [Candidate.mk "u1" 2; Candidate.mk "u4" 2; Candidate.mk "u5" 3]) in
  let c := ("c", [Candidate.mk "u6" 3; Candidate.mk "u7" 1; Candidate.mk "u8" 2]) in
  let d := ("d", [Candidate.mk "u9" 3; Candidate.mk "u1" 1]) in
  ranks_before [a; b; c; d] a c.
Proof.
  intros a b c d.
  apply (proj2 (proj2 (proj2 (C6_good_queries_top [a; b; c; d])))).
  exists [b], [], []. reflexivity.
Defined.

(** Any list that is sorted by the key and keeps each key class in input
    order is the one [sorted] returns: the result does not depend on the
    sorting algorithm, as long as it is stable. *)
Lemma sorted_unique {A} (key : A -> Z) (l l' : list A) :
  StronglySorted (fun a b => key a <= key b) l' ->
  (forall k, filter (fun a => key a = k) l' = filter (fun a => key a = k) l) ->
  l' = sorted key l.
Proof.
  intros Hs' Hcl.
  assert (forall l1 l2 : list A,
            StronglySorted (fun a b => key a <= key b) l1 ->
            StronglySorted (fun a b => key a <= key b) l2 ->
            (forall k, filter (fun a => key a = k) l1
                       = filter (fun a => key a = k) l2) ->
            l1 = l2) as Huniq.
  { clear. induction l1 as [|x l1 IH]; intros l2 H1 H2 Hc.
    - destruct l2 as [|y l2]; [done|].
      specialize (Hc (key y)). rewrite filter_cons, decide_True in Hc by done.
      done.
    - destruct l2 as [|y l2].
      { specialize (Hc (key x)). rewrite filter_cons, decide_True in Hc by done.
        done. }
      apply StronglySorted_inv in H1 as [H1 Hx].
      apply StronglySorted_inv in H2 as [H2 Hy].
      rewrite Forall_forall in Hx, Hy.
      assert (key x = key y) as Hk.
      { destruct (decide (key x = key y)) as [|Hne]; [done|].
        assert (y ∈ l1) as Hy1.
        { pose proof (Hc (key y)) as Hcy.
          rewrite !filter_cons, (decide_True (P := key y = key y)) in Hcy by done.
          rewrite decide_False in Hcy by done.
          assert (y ∈ filter (fun a => key a = key y) l1) as Hin
            by (rewrite Hcy; left).
          by apply list_elem_of_filter in Hin as [_ ?]. }
        assert (x ∈ l2) as Hx2.
        { pose proof (Hc (key x)) as Hcx.
          rewrite !filter_cons, (decide_True (P := key x = key x)) in Hcx by done.
          rewrite decide_False in Hcx by done.
          assert (x ∈ filter (fun a => key a = key x) l2) as Hin
            by (rewrite <- Hcx; left).
          by apply list_elem_of_filter in Hin as [_ ?]. }
        specialize (Hx _ Hy1). specialize (Hy _ Hx2). simpl in *. lia. }
      pose proof (Hc (key x)) as Hcx.
      rewrite !filter_cons, (decide_True (P := key x = key x)) in Hcx by done.
      rewrite decide_True in Hcx by done.
      injection Hcx as -> Hcx. f_equal. apply IH; [done..|].
      intros k. destruct (decide (key y = k)) as [<-|Hne]; [done|].
      specialize (Hc k). by rewrite !filter_cons, !decide_False in Hc. }
  apply Huniq; [done | apply sorted_sorted |].
  intros k. by rewrite sorted_stable.
Qed.

(** ** Identifiers *)

Lemma string_of_uint_digits d :
  str_forall Py.is_digit (NilEmpty.string_of_uint d) = true.
Proof. induction d; simpl; done. Qed.

Lemma fmt_02d_digits n : str_forall Py.is_digit (Py.fmt_02d n) = true.
Proof.
  unfold Py.fmt_02d. case_match; simpl; apply string_of_uint_digits.
Qed.

(** Reading the digits back gives the number. *)
Lemma fmt_02d_read n :
  Nat.of_uint <$> NilEmpty.uint_of_string (Py.fmt_02d n) = Some n.
Proof.
  unfold Py.fmt_02d. case_match.
  - cbn [NilEmpty.uint_of_string]. rewrite NilEmpty.usu. simpl.
    f_equal. apply DecimalNat.Unsigned.of_to.
  - rewrite NilEmpty.usu. simpl. f_equal. apply DecimalNat.Unsigned.of_to.
Qed.

Lemma fmt_02d_inj n m : Py.fmt_02d n = Py.fmt_02d m -> n = m.
Proof.
  intros H. pose proof (fmt_02d_read n) as Hn. rewrite H, fmt_02d_read in Hn.
  by simplify_eq.
Qed.

Lemma qid_of_inj i j : qid_of i = qid_of j -> i = j.
Proof. unfold qid_of. simpl. intros H. apply fmt_02d_inj. by simplify_eq. Qed.

Lemma digits_underscore_split a b x y :
  str_forall Py.is_digit a = true -> str_forall Py.is_digit b = true ->
  a +:+ String "_" x = b +:+ String "_" y -> a = b /\ x = y.
Proof.
  revert b. induction a as [|c a IH]; intros [|c' b] Ha Hb Heq; simpl in *.
  - by simplify_eq.
  - apply andb_true_iff in Hb as [Hc _]. injection Heq as <- _. done.
  - apply andb_true_iff in Ha as [Hc _]. injection Heq as -> _. done.
  - apply andb_true_iff in Ha as [_ Ha]. apply andb_true_iff in Hb as [_ Hb].
    injection Heq as -> Heq. destruct (IH b Ha Hb Heq) as [-> ->]. done.
Qed.

Lemma cid_of_inj i n j m :
  cid_of (qid_of i) n = cid_of (qid_of j) m -> i = j /\ n = m.
Proof.
  unfold cid_of, qid_of. simpl. intros H. simplify_eq.
  apply digits_underscore_split in H as [Hq Hc]; [|apply fmt_02d_digits..].
  split; [by apply fmt_02d_inj|]. apply fmt_02d_inj. by simplify_eq.
Qed.

Lemma cid_of_inj_n qid n m : cid_of qid n = cid_of qid m -> n = m.
Proof.
  unfold cid_of. intros H. apply fmt_02d_inj.
  induction qid as [|c q IH]; simpl in H.
  - by injection H.
  - injection H as H. by apply IH.
Qed.

(** ** Dictionaries *)

Lemma dict_set_keys {V} (d : list (string * V)) k v i :
  i ∈ (Dict.set d k v).*1 <-> i = k \/ i ∈ d.*1.
Proof.
  induction d as [|[k' v'] d IH]; simpl.
  - rewrite list_elem_of_singleton, elem_of_nil. tauto.
  - case_decide as Hk; simpl; rewrite !elem_of_cons.
    + subst k'. tauto.
    + rewrite IH. tauto.
Qed.

Lemma comprehension_keys {A V} (key : A -> string) (val : A -> V) l i :
  i ∈ (Dict.comprehension key val l).*1 <-> i ∈ key <$> l.
Proof.
  unfold Dict.comprehension.
  assert (forall d, i ∈ (fold_left (fun d c => Dict.set d (key c) (val c)) l d).*1
                    <-> i ∈ d.*1 \/ i ∈ key <$> l) as H.
  { induction l as [|c l IH]; intros d; simpl.
    - rewrite elem_of_nil. tauto.
    - rewrite IH, dict_set_keys, elem_of_cons. tauto. }
  rewrite H. simpl. rewrite elem_of_nil. tauto.
Qed.

(** ** The inner loop of the assembler *)

Lemma build_q_chunks_acc results qid sel : forall counter acc,
  build_q_chunks results qid sel counter acc
  = ((build_q_chunks results qid sel counter []).1,
     acc ++ (build_q_chunks results qid sel counter []).2).
Proof.
  induction sel as [|c rest IH]; intros counter acc; simpl.
  - by rewrite app_nil_r.
  - destruct (resolved results (Candidate.url c)) as [code|]; [|apply IH].
    rewrite IH. rewrite (IH _ [_]). simpl. by rewrite <- app_assoc.
Qed.

Lemma build_q_chunks_props results qid sel : forall counter,
  let new := (build_q_chunks results qid sel counter []).2 in
  Forall (fun c => Chunk.query_id c = qid) new
  /\ Chunk.id <$> new
     = cid_of qid <$> seq (S (default O (counter !! qid))) (length new)
  /\ length (filter chunk_relevant new)
     = length (filter
         (fun c => positive c /\ is_Some (resolved results (Candidate.url c)))
         sel).
Proof.
  induction sel as [|c rest IH]; intros counter; simpl.
  - done.
  - destruct (resolved results (Candidate.url c)) as [code|] eqn:Hres.
    + rewrite build_q_chunks_acc. simpl.
      destruct (IH (<[qid := S (default O (counter !! qid))]> counter))
        as (Hq & Hids & Hrel).
      rewrite lookup_insert_eq in Hids. simpl in Hids.
      split; [by constructor|]. split.
      * simpl. f_equal. exact Hids.
      * rewrite !filter_cons.
        destruct (decide (positive c)) as [Hp|Hp].
        -- rewrite (decide_True (P := chunk_relevant _)) by exact Hp.
           rewrite decide_True by (split; [done | by rewrite Hres]).
           simpl. by rewrite Hrel.
        -- rewrite (decide_False (P := chunk_relevant _)) by exact Hp.
           rewrite decide_False by tauto. done.
    + destruct (IH counter) as (Hq & Hids & Hrel).
      split; [done|]. split; [done|].
      rewrite filter_cons, decide_False; [done|].
      rewrite Hres. intros [_ [? ?]]. done.
Qed.

Lemma build_q_chunks_ids_NoDup results qid sel counter :
  NoDup (Chunk.id <$> (build_q_chunks results qid sel counter []).2).
Proof.
  destruct (build_q_chunks_props results qid sel counter) as (_ & -> & _).
  apply NoDup_fmap_2_strong; [|apply NoDup_seq].
  intros n m _ _. apply cid_of_inj_n.
Qed.

(** One iteration either leaves both lists as they are, which happens
    exactly when fewer than [MIN_POSITIVES] positives resolved, or appends
    one query and its chunks. *)
Lemma assemble_step_cases results st qi entry :
  let new := (build_q_chunks results (qid_of qi) (selected entry.2)
                (chunk_counter st) []).2 in
  let st' := assemble_step results st qi entry in
  (resolved_positives results entry < MIN_POSITIVES
   /\ queries_raw st' = queries_raw st /\ chunks_raw st' = chunks_raw st)
  \/ (MIN_POSITIVES <= resolved_positives results entry
      /\ queries_raw st'
         = queries_raw st ++
           [EvalQuery.mk (qid_of qi) entry.1
              (Chunk.id <$> filter chunk_relevant new)
              (Dict.comprehension Chunk.id Chunk.relevance new)
              (Chunk.id <$> new)]
      /\ chunks_raw st' = chunks_raw st ++ new).
Proof.
  destruct entry as [query candidates]. simpl.
  unfold assemble_step, resolved_positives. simpl.
  destruct (build_q_chunks_props results (qid_of qi) (selected candidates)
              (chunk_counter st)) as (_ & _ & Hrel).
  destruct (build_q_chunks results (qid_of qi) (selected candidates)
              (chunk_counter st) []) as [counter new] eqn:Hb.
  simpl in *. rewrite <- Hrel.
  destruct new as [|c new].
  - left. simpl. unfold MIN_POSITIVES. split; [lia | done].
  - destruct (Z.ltb_spec
                (Z.of_nat (length (Chunk.id <$> filter chunk_relevant (c :: new))))
                MIN_POSITIVES) as [Hlt|Hge]; rewrite length_fmap in *.
    + left. done.
    + right. done.
Qed.

(** ** The assembly loop keeps its invariant *)

Lemma chunk_ok_mono qi qi' queries queries' c :
  (qi <= qi')%nat -> (forall q, q ∈ queries -> q ∈ queries') ->
  chunk_ok qi queries c -> chunk_ok qi' queries' c.
Proof.
  intros Hle Hsub (j & n & q & Hj & Hid & Hq & Hin & Hqid & Hc).
  exists j, n, q. repeat split; auto. lia.
Qed.

Lemma query_ok_mono results gq qi qi' chunks chunks' q :
  (qi <= qi')%nat -> (forall c, c ∈ chunks -> c ∈ chunks') ->
  query_ok results gq qi chunks q -> query_ok results gq qi' chunks' q.
Proof.
  intros Hle Hsub (Hrel & Hmin & Hkeys & Hch & j & entry & Hj & He & Hid & Hp).
  repeat split; auto.
  - by apply Hkeys.
  - by apply Hkeys.
  - intros i Hi. destruct (Hch i Hi) as (c & Hc & Hci & Hcq). eauto.
  - exists j, entry. repeat split; auto. lia.
Qed.

Lemma assemble_step_assembled results gq st qi entry :
  gq !! qi = Some entry ->
  assembled results gq qi st ->
  assembled results gq (S qi) (assemble_step results st qi entry).
Proof.
  intros Hentry [Hqs Hcs Hcid Hqid].
  pose proof (build_q_chunks_props results (qid_of qi) (selected entry.2)
                (chunk_counter st)) as (Hnew_q & Hnew_ids & Hnew_rel).
  pose proof (build_q_chunks_ids_NoDup results (qid_of qi) (selected entry.2)
                (chunk_counter st)) as Hnew_nd.
  destruct (assemble_step_cases results st qi entry)
    as [(Hlt & Hq' & Hc')|(Hge & Hq' & Hc')].
  { split; rewrite ?Hq', ?Hc'; [| |done|done].
    - intros q Hq. eapply query_ok_mono; [| |by apply Hqs]; auto.
    - intros c Hc. eapply chunk_ok_mono; [| |by apply Hcs]; auto. }
  set (new := (build_q_chunks results (qid_of qi) (selected entry.2)
                 (chunk_counter st) []).2) in *.
  set (qnew := EvalQuery.mk (qid_of qi) entry.1
                 (Chunk.id <$> filter chunk_relevant new)
                 (Dict.comprehension Chunk.id Chunk.relevance new)
                 (Chunk.id <$> new)) in *.
  rewrite Forall_forall in Hnew_q.
  assert (forall c, c ∈ new -> exists n, Chunk.id c = cid_of (qid_of qi) n)
    as Hnew_form.
  { intros c Hc. apply (list_elem_of_fmap_2 Chunk.id) in Hc.
    rewrite Hnew_ids in Hc. apply list_elem_of_fmap in Hc as (n & -> & _).
    by exists n. }
  split.
  - rewrite Hq', Hc'. intros q Hq. apply elem_of_app in Hq as [Hq|Hq].
    + eapply query_ok_mono; [| |by apply Hqs]; [lia|].
      intros c Hc. apply elem_of_app. by left.
    + apply list_elem_of_singleton in Hq as ->.
      repeat split; simpl.
      * intros i Hi. apply list_elem_of_fmap in Hi as (c & -> & Hc).
        apply list_elem_of_filter in Hc as [_ Hc].
        by apply list_elem_of_fmap_2.
      * rewrite length_fmap. unfold resolved_positives in Hge.
        by rewrite Hnew_rel.
      * by apply comprehension_keys.
      * by apply comprehension_keys.
      * intros i Hi. apply list_elem_of_fmap in Hi as (c & -> & Hc).
        exists c. split; [apply elem_of_app; by right|]. split; [done|].
        by apply Hnew_q.
      * exists qi, entry. repeat split; auto.
  - rewrite Hq', Hc'. intros c Hc. apply elem_of_app in Hc as [Hc|Hc].
    + eapply chunk_ok_mono; [| |by apply Hcs]; [lia|].
      intros q Hq. apply elem_of_app. by left.
    + destruct (Hnew_form c Hc) as [n Hn].
      exists qi, n, qnew. repeat split; auto.
      * apply elem_of_app. right. by apply list_elem_of_singleton.
      * simpl. by apply list_elem_of_fmap_2.
  - rewrite Hc', fmap_app. apply NoDup_app. split; [done|]. split; [|done].
    intros i Hold Hnew.
    apply list_elem_of_fmap in Hold as (c & -> & Hc).
    apply list_elem_of_fmap in Hnew as (c' & Heq & Hcn).
    destruct (Hcs c Hc) as (j & n & _ & Hj & Hid & _).
    destruct (Hnew_form c' Hcn) as [n' Hn'].
    rewrite Hid, Hn' in Heq. apply cid_of_inj in Heq as [-> _]. lia.
  - rewrite Hq', fmap_app. apply NoDup_app. split; [done|]. split.
    + intros i Hold Hnew. apply list_elem_of_singleton in Hnew. simpl in Hnew.
      apply list_elem_of_fmap in Hold as (q & -> & Hq).
      destruct (Hqs q Hq) as (_ & _ & _ & _ & j & e & Hj & _ & Hid & _).
      rewrite Hid in Hnew. apply qid_of_inj in Hnew. lia.
    + apply NoDup_singleton.
Qed.

Lemma assemble_loop_assembled results full :
  forall gq pre st,
    full = pre ++ gq ->
    assembled results full (length pre) st ->
    assembled results full (length full)
      (assemble_loop results st (length pre) gq).
Proof.
  induction gq as [|entry rest IH]; intros pre st Hfull Hinv; simpl.
  - rewrite app_nil_r in Hfull. by subst full.
  - specialize (IH (pre ++ [entry]) (assemble_step results st (length pre) entry)).
    rewrite length_app in IH. simpl in IH.
    replace (length pre + 1)%nat with (S (length pre)) in IH by lia.
    apply IH.
    + subst full. by rewrite <- app_assoc.
    + apply assemble_step_assembled; [|done].
      subst full. by rewrite list_lookup_middle.
Qed.

Lemma assemble_assembled results gq :
  assembled results gq (length gq) (assemble results gq).
Proof.
  apply (assemble_loop_assembled results gq gq []); [done|].
  split; simpl.
  - intros q Hq. by apply elem_of_nil in Hq.
  - intros c Hc. by apply elem_of_nil in Hc.
  - apply NoDup_nil_2.
  - apply NoDup_nil_2.
Qed.

(** ** The fetch phase *)

Lemma fetch_code_value m net url :
  (fetch_code m net url).2 = Return (fetch_value m net url).
Proof.
  unfold fetch_value. rewrite fetch_code_spec.
  by destruct (github_url_to_raw m url) as [[[raw s] e]|].
Qed.

Lemma fetch_code_requests m net url :
  (fetch_code m net url).1 = option_list (raw_of m url).
Proof.
  unfold raw_of. rewrite fetch_code_spec.
  by destruct (github_url_to_raw m url) as [[[raw s] e]|].
Qed.

Lemma pool_outcomes_lookup m net jobs i :
  pool_outcomes m net jobs !! i
  = (fun j => fetch_code m (net i) (job_url j)) <$> jobs !! i.
Proof. unfold pool_outcomes. apply list_lookup_imap. Qed.

(** One request per job whose locator parses, whatever the other jobs. *)
Lemma run_pool_requests m net jobs order :
  (run_pool m net jobs order).1 = omap (fun j => raw_of m (job_url j)) jobs.
Proof.
  unfold run_pool, pool_outcomes. simpl. clear order.
  revert net. induction jobs as [|j jobs IH]; intros net; [done|].
  rewrite imap_cons, fmap_cons. cbn [concat omap list_omap].
  set (tail := concat _).
  assert (tail = omap (fun j => raw_of m (job_url j)) jobs) as ->
    by exact (IH (fun i => net (S i))).
  rewrite fetch_code_requests.
  by destruct (raw_of m (job_url j)).
Qed.

Lemma collect_results m net jobs order : forall results,
  collect jobs (snd <$> pool_outcomes m net jobs) order results
  = Return (fold_left (pool_step m net jobs) order results).
Proof.
  induction order as [|i order IH]; intros results; simpl; [done|].
  rewrite list_lookup_fmap, pool_outcomes_lookup. unfold pool_step at 2.
  destruct (jobs !! i) as [j|]; simpl; [|apply IH].
  rewrite fetch_code_value. apply IH.
Qed.

(** The pool never raises: it ends with a results map. *)
Lemma run_pool_results m net jobs order :
  (run_pool m net jobs order).2 = Return (pool_results m net jobs order).
Proof. unfold run_pool, pool_results. simpl. apply collect_results. Qed.

Section PoolResults.
Context (m : nat) (net : nat -> string -> option string) (jobs : list job).

(** A later completion leaves a locator's entry alone unless it is a
    job for that locator. *)
Lemma fold_step_other order results u :
  (forall k j, k ∈ order -> jobs !! k = Some j -> job_url j <> u) ->
  fold_left (pool_step m net jobs) order results !! u = results !! u.
Proof.
  revert results. induction order as [|i order IH]; intros results Hno;
    simpl; [done|].
  rewrite IH by (intros k j Hk; apply Hno; by right).
  unfold pool_step. destruct (jobs !! i) as [j|] eqn:Hj; [|done].
  apply lookup_insert_ne. eapply Hno; [by left | done].
Qed.

(** The stored entry is that of the job for the locator that completes
    last. *)
Lemma pool_results_last o1 i o2 j :
  jobs !! i = Some j ->
  (forall k j', k ∈ o2 -> jobs !! k = Some j' -> job_url j' <> job_url j) ->
  pool_results m net jobs (o1 ++ i :: o2) !! job_url j
  = Some (fetch_value m (net i) (job_url j)).
Proof.
  intros Hj Hno. unfold pool_results. rewrite fold_left_app. simpl.
  rewrite fold_step_other by done.
  unfold pool_step. rewrite Hj. apply lookup_insert_eq.
Qed.

(** Entries exist exactly for the locators of completed jobs. *)
Lemma fold_step_lookup_None order results u :
  fold_left (pool_step m net jobs) order results !! u = None <->
  results !! u = None
  /\ forall k j, k ∈ order -> jobs !! k = Some j -> job_url j <> u.
Proof.
  revert results. induction order as [|i order IH]; intros results; simpl.
  - split; [|tauto]. intros H. split; [done|].
    intros k j Hk. by apply elem_of_nil in Hk.
  - rewrite IH. unfold pool_step at 1. split.
    + intros [Hr Hno]. destruct (jobs !! i) as [j|] eqn:Hj.
      * destruct (decide (job_url j = u)) as [<-|Hne].
        { by rewrite lookup_insert_eq in Hr. }
        rewrite lookup_insert_ne in Hr by done. split; [done|].
        intros k j' Hk Hj'. apply elem_of_cons in Hk as [->|Hk]; [|eauto].
        by simplify_eq.
      * split; [done|]. intros k j' Hk Hj'.
        apply elem_of_cons in Hk as [->|Hk]; [congruence | eauto].
    + intros [Hr Hno]. split.
      * destruct (jobs !! i) as [j|] eqn:Hj; [|done].
        rewrite lookup_insert_ne; [done|]. eapply Hno; [by left | done].
      * intros k j Hk. apply Hno. by right.
Qed.
End PoolResults.

(** With a network that answers by locator only, every stored entry is the
    answer for its locator, so the map does not depend on the completion
    order. *)
Lemma pool_results_mock m mock jobs order u :
  order ≡ₚ seq 0 (length jobs) ->
  pool_results m (fun _ => mock) jobs order !! u
  = if decide (u ∈ job_url <$> jobs) then Some (fetch_value m mock u)
    else None.
Proof.
  intros Hperm. unfold pool_results.
  destruct (fold_left _ order ∅ !! u) as [v|] eqn:Hv.
  - assert (forall (order : list nat) (results : gmap string (option string)),
              fold_left (pool_step m (fun _ => mock) jobs) order results !! u
              = Some v ->
              results !! u = Some v
              \/ (v = fetch_value m mock u /\ u ∈ job_url <$> jobs)) as Hinv.
    { clear. induction order as [|i order IH]; intros results; simpl; [auto|].
      intros H. apply IH in H as [H|H]; [|auto]. unfold pool_step in H.
      destruct (jobs !! i) as [j|] eqn:Hj; [|auto].
      destruct (decide (job_url j = u)) as [<-|Hne].
      - rewrite lookup_insert_eq in H. right. split; [congruence|].
        apply list_elem_of_fmap_2. by eapply list_elem_of_lookup_2.
      - rewrite lookup_insert_ne in H by done. auto. }
    apply Hinv in Hv as [Hv|[-> Hin]]; [by rewrite lookup_empty in Hv|].
    by rewrite decide_True.
  - apply fold_step_lookup_None in Hv as [_ Hno].
    rewrite decide_False; [done|].
    intros Hin. apply list_elem_of_fmap in Hin as (j & -> & Hj).
    apply list_elem_of_lookup_1 in Hj as [i Hi].
    apply (Hno i j); [|done..].
    rewrite Hperm. apply elem_of_seq. apply lookup_lt_Some in Hi. lia.
Qed.

Lemma pool_results_order_irrelevant m mock jobs o1 o2 :
  o1 ≡ₚ seq 0 (length jobs) -> o2 ≡ₚ seq 0 (length jobs) ->
  pool_results m (fun _ => mock) jobs o1
  = pool_results m (fun _ => mock) jobs o2.
Proof.
  intros H1 H2. apply map_eq. intros u.
  by rewrite !pool_results_mock.
Qed.

(** ** The whole run *)

Lemma main_spec m rows net order now :
  main m rows net order now =
  match load m rows with
  | Raise e => ([], Raise e)
  | Return bq =>
      let gq := good_queries bq in
      ((run_pool m net (fetch_jobs gq) order).1,
       Return (dataset (pool_results m net (fetch_jobs gq) order) gq now))
  end.
Proof.
  unfold main, mbind, io_mbind, io_bind, io_lift, mret, io_mret, io_ret.
  destruct (load m rows) as [bq|e]; [|done].
  pose proof (run_pool_results m net (fetch_jobs (good_queries bq)) order) as H.
  destruct (run_pool m net (fetch_jobs (good_queries bq)) order) as [log r].
  simpl in *. subst r. by rewrite app_nil_r.
Qed.

Lemma chunks_out_ids l : ChunkOut.id <$> chunks_out l = Chunk.id <$> l.
Proof. unfold chunks_out. by rewrite <- list_fmap_compose. Qed.

Lemma chunks_out_query_ids l :
  ChunkOut.query_id <$> chunks_out l = Chunk.query_id <$> l.
Proof. unfold chunks_out. by rewrite <- list_fmap_compose. Qed.

Lemma exactly_one {A} (f : A -> string) (l : list A) x :
  NoDup (f <$> l) -> x ∈ f <$> l ->
  length (filter (fun a => f a = x) l) = 1%nat.
Proof.
  induction l as [|a l IH]; intros Hnd Hin.
  - by apply elem_of_nil in Hin.
  - rewrite fmap_cons in Hnd, Hin. apply NoDup_cons in Hnd as [Hna Hnd].
    rewrite filter_cons. case_decide as Ha.
    + subst x. simpl. f_equal.
      destruct (filter (fun a0 => f a0 = f a) l) as [|b k] eqn:Hf; [done|].
      assert (b ∈ filter (fun a0 => f a0 = f a) l) as Hb by (rewrite Hf; left).
      apply list_elem_of_filter in Hb as [Hb1 Hb2].
      destruct Hna. rewrite <- Hb1. by apply list_elem_of_fmap_2.
    + apply elem_of_cons in Hin as [->|Hin]; [done|]. by apply IH.
Qed.

(** ** The claims about the fetch phase *)

(** C2 as stated fails: two queries share the locator [a.py]; the run
    requests its raw URL twice. *)
Lemma C2_shared_locator_fetched_twice :
  let run :=
    main 4300 shared_locator_rows (fun _ _ => Some sample_text)
      [0; 1; 2; 3]%nat "2026-01-01T00:00:00+00:00" in
  let requests_for_a :=
    filter (fun r => r = "https://raw.githubusercontent.com/o/r/abc/a.py")
      run.1 in
  length requests_for_a = 2%nat /\ ~ (length requests_for_a <= 1)%nat.
Proof. vm_compute. split; [reflexivity | lia]. Qed.

(** C2, amended: the pool issues one request per fetch job whose locator
    parses, so a locator that occurs in several jobs is requested once per
    occurrence; the pool always ends with a results map keyed by locator,
    which has an entry exactly for the locators of the completed jobs, and
    the entry of a locator is the result of its job that completed last. *)
Theorem C2_one_request_per_job (m : nat)
    (net : nat -> string -> option string) (jobs : list job)
    (order : list nat) :
  (run_pool m net jobs order).1 = omap (fun j => raw_of m (job_url j)) jobs
  /\ exists results,
       (run_pool m net jobs order).2 = Return results
       /\ (forall u, results !! u = None <->
             forall k j, k ∈ order -> jobs !! k = Some j -> job_url j <> u)
       /\ forall o1 i o2 j,
            order = o1 ++ i :: o2 -> jobs !! i = Some j ->
            (forall k j', k ∈ o2 -> jobs !! k = Some j' ->
                          job_url j' <> job_url j) ->
            results !! job_url j = Some (fetch_value m (net i) (job_url j)).
Proof.
  split; [apply run_pool_requests|].
  exists (pool_results m net jobs order).
  split; [apply run_pool_results|]. split.
  - intros u. unfold pool_results. rewrite fold_step_lookup_None.
    rewrite lookup_empty. tauto.
  - intros o1 i o2 j -> Hj Hno. by apply pool_results_last.
Qed.

Lemma C2_one_request_per_job_witness :
  let jobs := fetch_jobs (good_queries
    [("parse json",
      [Candidate.mk "https://github.com/o/r/blob/abc/a.py" 3;
       Candidate.mk "https://github.com/o/r/blob/abc/b.py" 3]);
     ("read file",
      [Candidate.mk "https://github.com/o/r/blob/abc/a.py" 2;
       Candidate.mk "https://github.com/o/r/blob/abc/c.py" 3])]) in
  let net := fun (i : nat) (_ : string) =>
    if decide (i = 0%nat) then None else Some sample_text in
  exists results,
    (run_pool 4300 net jobs [2; 1; 0; 3]%nat).2 = Return results
    /\ results !! "https://github.com/o/r/blob/abc/a.py" = Some None.
Proof.
  intros jobs net.
  destruct (C2_one_request_per_job 4300 net jobs [2; 1; 0; 3]%nat)
    as (_ & results & Hres & _ & Hlast).
  exists results. split; [exact Hres|].
  apply (Hlast [2; 1]%nat 0%nat [3]%nat
           ("parse json", "https://github.com/o/r/blob/abc/a.py", 3)).
  - reflexivity.
  - reflexivity.
  - intros k j' Hk Hj'. apply list_elem_of_singleton in Hk as ->.
    vm_compute in Hj'. injection Hj' as <-. discriminate.
Defined.

(** C9: with the same feed and the same locator-to-body mapping, two runs
    give the same chunks, queries and counts, and issue the same requests,
    whatever the order in which the fetches complete and whatever the
    timestamps; if loading raises, both runs raise the same exception. *)
Theorem C9_run_deterministic (m : nat) (rows : list Row.t)
    (mock : string -> option string) (o1 o2 : list nat) (t1 t2 : string) :
  o1 ≡ₚ seq 0 (length (jobs_of m rows)) ->
  o2 ≡ₚ seq 0 (length (jobs_of m rows)) ->
  same_outcome (main m rows (fun _ => mock) o1 t1).2
               (main m rows (fun _ => mock) o2 t2).2
  /\ (main m rows (fun _ => mock) o1 t1).1
     = (main m rows (fun _ => mock) o2 t2).1.
Proof.
  unfold jobs_of. intros H1 H2. rewrite !main_spec.
  destruct (load m rows) as [bq|e]; [|done].
  cbv zeta. cbn [fst snd same_outcome].
  rewrite !run_pool_requests. split; [|done].
  unfold structure, dataset. cbn [queryCount chunkCount chunks queries].
  by rewrite (pool_results_order_irrelevant m mock _ o1 o2).
Qed.

Lemma C9_run_deterministic_witness :
  same_outcome
    (main 4300 shared_locator_rows (fun _ _ => Some sample_text)
       [0; 1; 2; 3]%nat "2026-01-01T00:00:00+00:00").2
    (main 4300 shared_locator_rows (fun _ _ => Some sample_text)
       [3; 0; 2; 1]%nat "2026-02-02T00:00:00+00:00").2.
Proof.
  apply (C9_run_deterministic 4300 shared_locator_rows
           (fun _ => Some sample_text)).
  - reflexivity.
  - apply (bool_decide_unpack _). vm_compute. exact I.
Defined.

(** ** The claims about the assembled dataset *)

(** C7: every query of the output has its relevant ids among its chunk ids
    and at least [MIN_POSITIVES] of them; and a selected query with fewer
    than [MIN_POSITIVES] resolved positives leaves no query and no chunk in
    the output. *)
Theorem C7_revalidation (results : gmap string (option string))
    (gq : list (string * list Candidate.t)) (now : string) :
  (forall q, q ∈ queries (dataset results gq now) ->
     (forall i, i ∈ EvalQuery.relevantIds q -> i ∈ EvalQuery.chunkIds q)
     /\ MIN_POSITIVES <= Z.of_nat (length (EvalQuery.relevantIds q)))
  /\ (forall qi entry,
        gq !! qi = Some entry ->
        resolved_positives results entry < MIN_POSITIVES ->
        (forall q, q ∈ queries (dataset results gq now) ->
                   EvalQuery.id q <> qid_of qi)
        /\ (forall c, c ∈ chunks (dataset results gq now) ->
                      ChunkOut.query_id c <> qid_of qi)).
Proof.
  destruct (assemble_assembled results gq) as [Hqs Hcs _ _].
  unfold dataset. cbn [queries chunks].
  assert (forall qi entry q,
            gq !! qi = Some entry ->
            resolved_positives results entry < MIN_POSITIVES ->
            q ∈ queries_raw (assemble results gq) ->
            EvalQuery.id q <> qid_of qi) as Hdropped.
  { intros qi entry q Hentry Hlt Hq Hid.
    destruct (Hqs q Hq) as (_ & _ & _ & _ & j & e & _ & He & Hj & Hge).
    rewrite Hid in Hj. apply qid_of_inj in Hj as <-.
    rewrite Hentry in He. simplify_eq. lia. }
  split.
  - intros q Hq. destruct (Hqs q Hq) as (Hrel & Hmin & _). auto.
  - intros qi entry Hentry Hlt. split; [by eauto|].
    intros c Hc Hid.
    apply (list_elem_of_fmap_2 ChunkOut.query_id) in Hc.
    rewrite chunks_out_query_ids in Hc.
    apply list_elem_of_fmap in Hc as (c' & Hc' & Hin).
    destruct (Hcs c' Hin) as (j & n & q & _ & _ & Hcq & Hq & Hqid & _).
    apply (Hdropped qi entry q Hentry Hlt Hq). congruence.
Qed.

Lemma C7_revalidation_witness :
  Forall (fun c => ChunkOut.query_id c <> qid_of 0)
    (chunks (dataset scenario_b_results [scenario_b_query]
               "2026-01-01T00:00:00+00:00")).
Proof.
  apply Forall_forall.
  apply (proj2 (C7_revalidation scenario_b_results [scenario_b_query]
                  "2026-01-01T00:00:00+00:00") 0%nat scenario_b_query).
  - reflexivity.
  - reflexivity.
Defined.

(** C8: the chunk ids of the output are pairwise distinct, and every id in
    a query's [chunkIds], [relevantIds] or [relevanceScores] keys is the id
    of exactly one chunk of the output. *)
Theorem C8_referential_integrity (results : gmap string (option string))
    (gq : list (string * list Candidate.t)) (now : string) :
  NoDup (ChunkOut.id <$> chunks (dataset results gq now))
  /\ forall q i,
       q ∈ queries (dataset results gq now) ->
       i ∈ EvalQuery.chunkIds q \/ i ∈ EvalQuery.relevantIds q
       \/ i ∈ (EvalQuery.relevanceScores q).*1 ->
       i ∈ ChunkOut.id <$> chunks (dataset results gq now)
       /\ length (filter (fun c => ChunkOut.id c = i)
                    (chunks (dataset results gq now))) = 1%nat.
Proof.
  destruct (assemble_assembled results gq) as [Hqs _ Hnd _].
  unfold dataset. cbn [queries chunks].
  assert (NoDup (ChunkOut.id <$> chunks_out (chunks_raw (assemble results gq))))
    as Hnd' by (by rewrite chunks_out_ids).
  split; [done|].
  intros q i Hq Hi.
  destruct (Hqs q Hq) as (Hrel & _ & Hkeys & Hch & _).
  assert (i ∈ EvalQuery.chunkIds q) as Hin.
  { destruct Hi as [Hi|[Hi|Hi]]; [done | by apply Hrel | by apply Hkeys]. }
  assert (i ∈ ChunkOut.id <$> chunks_out (chunks_raw (assemble results gq)))
    as Hin'.
  { rewrite chunks_out_ids. destruct (Hch i Hin) as (c & Hc & <- & _).
    by apply list_elem_of_fmap_2. }
  split; [done|]. by apply exactly_one.
Qed.

Lemma C8_referential_integrity_witness :
  "q_00_c02" ∈ ChunkOut.id <$>
    chunks (dataset scenario_a_results [scenario_b_query]
              "2026-01-01T00:00:00+00:00").
Proof.
  apply (proj2 (C8_referential_integrity scenario_a_results [scenario_b_query]
                  "2026-01-01T00:00:00+00:00")
           (EvalQuery.mk "q_00" "parse json" ["q_00_c01"; "q_00_c02"]
              [("q_00_c01", 3); ("q_00_c02", 3); ("q_00_c03", 1)]
              ["q_00_c01"; "q_00_c02"; "q_00_c03"])
           "q_00_c02").
  - vm_compute. left.
  - right. left. right. left.
Defined.

(** C10: the query ids of the output are pairwise distinct; every chunk of
    the output belongs to exactly one query of the output, the one whose id
    is the chunk's [query_id], and is listed in that query's [chunkIds]; and
    the keys of a query's [relevanceScores] are its [chunkIds]. *)
Theorem C10_no_orphan_chunks (results : gmap string (option string))
    (gq : list (string * list Candidate.t)) (now : string) :
  NoDup (EvalQuery.id <$> queries (dataset results gq now))
  /\ (forall c, c ∈ chunks (dataset results gq now) ->
        length (filter (fun q => EvalQuery.id q = ChunkOut.query_id c)
                  (queries (dataset results gq now))) = 1%nat
        /\ exists q, q ∈ queries (dataset results gq now)
                     /\ EvalQuery.id q = ChunkOut.query_id c
                     /\ ChunkOut.id c ∈ EvalQuery.chunkIds q)
  /\ (forall q i, q ∈ queries (dataset results gq now) ->
        i ∈ (EvalQuery.relevanceScores q).*1 <-> i ∈ EvalQuery.chunkIds q).
Proof.
  destruct (assemble_assembled results gq) as [Hqs Hcs _ Hnd].
  unfold dataset. cbn [queries chunks].
  split; [done|]. split.
  - intros c Hc. unfold chunks_out in Hc.
    apply list_elem_of_fmap in Hc as (c' & -> & Hin). simpl.
    destruct (Hcs c' Hin) as (j & n & q & _ & _ & Hcq & Hq & Hqid & Hcid).
    split.
    + apply exactly_one; [done|]. rewrite Hcq, <- Hqid.
      by apply list_elem_of_fmap_2.
    + exists q. split; [done|]. split; [congruence | done].
  - intros q i Hq. destruct (Hqs q Hq) as (_ & _ & Hkeys & _). apply Hkeys.
Qed.

Lemma C10_no_orphan_chunks_witness :
  exists q,
    q ∈ queries (dataset scenario_a_results [scenario_b_query]
                   "2026-01-01T00:00:00+00:00")
    /\ EvalQuery.id q = "q_00"
    /\ "q_00_c03" ∈ EvalQuery.chunkIds q.
Proof.
  destruct (C10_no_orphan_chunks scenario_a_results [scenario_b_query]
              "2026-01-01T00:00:00+00:00") as (_ & Hchunk & _).
  destruct (Hchunk (ChunkOut.mk "q_00_c03" "q_00" 1 sample_text)) as [_ Hq].
  - vm_compute. right. right. left.
  - exact Hq.
Defined.

(** ** End-to-end scenarios of the specification *)

Example scenario_a :
  let out := dataset scenario_a_results [scenario_b_query] "t" in
  (EvalQuery.relevantIds <$> queries out) = [["q_00_c01"; "q_00_c02"]]
  /\ (EvalQuery.chunkIds <$> queries out)
     = [["q_00_c01"; "q_00_c02"; "q_00_c03"]].
Proof. vm_compute. done. Qed.

Example scenario_b :
  let out := dataset scenario_b_results [scenario_b_query] "t" in
  queries out = [] /\ chunks out = [].
Proof. vm_compute. done. Qed.

Example scenario_b_run :
  (main 4300
     [Row.mk "Python" "parse json" "https://github.com/o/r/blob/abc/a.py"
        (Some "3");
      Row.mk "Python" "parse json" "https://github.com/o/r/blob/abc/b.py"
        (Some "3");
      Row.mk "Python" "parse json" "https://github.com/o/r/blob/abc/c.py"
        (Some "1")]
     (fun _ raw =>
        if decide (raw = "https://raw.githubusercontent.com/o/r/abc/a.py")
        then None else Some sample_text)
     [2; 0; 1]%nat "t").2
  = Return (mk_output "t" 0 0 [] []).
Proof. vm_compute. done. Qed.

(** * Further properties of the script *)

(** ** The loaded mapping *)

Lemma filter_all {A} (P : A -> Prop) `{!forall a, Decision (P a)} (l : list A) :
  (forall a, a ∈ l -> P a) -> filter P l = l.
Proof.
  induction l as [|a l IH]; intros Hall; [done|].
  rewrite filter_cons_True by (apply Hall; left).
  f_equal. apply IH. intros b Hb. apply Hall. by right.
Qed.

Lemma dict_append_keys {V} (d : list (string * list V)) k x :
  (Dict.append d k x).*1
  = d.*1 ++ (if decide (k ∈ d.*1) then [] else [k]).
Proof.
  induction d as [|[k' v] d IH]; csimpl.
  - done.
  - destruct (decide (k' = k)) as [->|Hne]; csimpl.
    + rewrite decide_True by left. by rewrite app_nil_r.
    + rewrite IH. f_equal.
      destruct (decide (k ∈ d.*1)) as [Hin|Hin].
      * rewrite decide_True; [done|]. by right.
      * rewrite decide_False; [done|].
        intros Hc. apply elem_of_cons in Hc as [->|Hc]; done.
Qed.

Lemma dict_append_get {V} (d : list (string * list V)) k x q :
  default [] (Dict.get (Dict.append d k x) q)
  = default [] (Dict.get d q) ++ (if decide (k = q) then [x] else []).
Proof.
  induction d as [|[k' v] d IH]; simpl.
  - destruct (decide (k = q)); done.
  - destruct (decide (k' = k)) as [->|Hne]; simpl.
    + destruct (decide (k = q)); simpl; [done|]. by rewrite app_nil_r.
    + destruct (decide (k' = q)) as [->|Hq]; simpl; [|apply IH].
      rewrite decide_False by done. by rewrite app_nil_r.
Qed.

Lemma dict_get_is_Some {V} (d : list (string * V)) q :
  is_Some (Dict.get d q) <-> q ∈ d.*1.
Proof.
  induction d as [|[k v] d IH]; simpl.
  - split; [by intros [? ?] | by intros ?%elem_of_nil].
  - destruct (decide (k = q)) as [->|Hne].
    + split; [left | by eexists].
    + rewrite IH, elem_of_cons. naive_solver.
Qed.

Lemma first_seen_elem l q : q ∈ first_seen l <-> q ∈ l.
Proof.
  induction l as [|k l IH]; simpl; [done|].
  rewrite !elem_of_cons, list_elem_of_filter, IH.
  destruct (decide (q = k)); naive_solver.
Qed.

Lemma first_seen_NoDup l : NoDup (first_seen l).
Proof.
  induction l as [|k l IH]; simpl; [constructor|].
  apply NoDup_cons. split.
  - rewrite list_elem_of_filter. naive_solver.
  - by apply NoDup_filter.
Qed.

Lemma group_rows_keys m rows : forall d bq,
  group_rows m rows d = Return bq ->
  bq.*1 = d.*1 ++ filter (fun k => k ∉ d.*1) (first_seen (Row.Query <$> rows)).
Proof.
  induction rows as [|r rows IH]; intros d bq; simpl.
  - intros [= <-]. by rewrite app_nil_r.
  - destruct (relevance_of m r) as [rel|] eqn:Hrel; [|done]. simpl.
    intros H. apply IH in H. rewrite H, dict_append_keys.
    rewrite filter_cons, list_filter_filter.
    destruct (decide (Row.Query r ∈ d.*1)) as [Hin|Hin].
    + rewrite app_nil_r, decide_False by tauto. f_equal.
      apply list_filter_iff. intros k. split; [|tauto].
      intros Hk. split; [done|]. by intros ->.
    + rewrite decide_True by done. rewrite <- app_assoc. simpl. do 2 f_equal.
      apply list_filter_iff. intros k.
      rewrite elem_of_app, list_elem_of_singleton. tauto.
Qed.

Lemma group_rows_groups m rows : forall d bq q,
  group_rows m rows d = Return bq ->
  default [] (Dict.get bq q)
  = default [] (Dict.get d q)
    ++ (candidate_of m <$> filter (fun r => Row.Query r = q) rows).
Proof.
  induction rows as [|r rows IH]; intros d bq q; simpl.
  - intros [= <-]. by rewrite app_nil_r.
  - destruct (relevance_of m r) as [rel|] eqn:Hrel; [|done]. simpl.
    intros H. rewrite (IH _ _ q H), dict_append_get, filter_cons.
    rewrite <- app_assoc. f_equal.
    destruct (decide (Row.Query r = q)) as [Hq|Hq]; [|done].
    rewrite fmap_cons. unfold candidate_of at 2. by rewrite Hrel.
Qed.

(** X1: after a successful load, the keys of the mapping are the queries of
    the Python rows, each once, in the order in which the feed first
    mentions them. *)
Theorem load_keys_first_seen (m : nat) (rows : list Row.t)
    (bq : list (string * list Candidate.t)) :
  load m rows = Return bq ->
  bq.*1 = first_seen (Row.Query <$> py_rows rows)
  /\ NoDup bq.*1
  /\ forall q, q ∈ bq.*1 <->
               exists r, r ∈ rows /\ Row.Language r = "Python"
                         /\ Row.Query r = q.
Proof.
  intros H. unfold load in H. apply group_rows_keys in H. simpl in H.
  assert (bq.*1 = first_seen (Row.Query <$> py_rows rows)) as Hkeys.
  { rewrite H. apply filter_all. intros k _. apply not_elem_of_nil. }
  split; [done|]. rewrite Hkeys. split; [apply first_seen_NoDup|].
  intros q. rewrite first_seen_elem, list_elem_of_fmap. unfold py_rows.
  setoid_rewrite list_elem_of_filter. naive_solver.
Qed.

Lemma load_keys_first_seen_witness :
  (("parse json",
    [Candidate.mk "https://github.com/o/r/blob/abc/a.py" 3;
     Candidate.mk "https://github.com/o/r/blob/abc/b.py" 3]) ::
   ("read file",
    [Candidate.mk "https://github.com/o/r/blob/abc/a.py" 2;
     Candidate.mk "https://github.com/o/r/blob/abc/c.py" 3]) :: []).*1
  = first_seen (Row.Query <$> py_rows shared_locator_rows).
Proof.
  apply (proj1 (load_keys_first_seen 4300 shared_locator_rows _ eq_refl)).
Defined.

(** X2: after a successful load, the candidates stored under a query are
    exactly the Python rows of that query, in feed order, each with its
    locator and converted relevance; rows of other languages add nothing,
    and a query of no Python row has no entry. *)
Theorem load_groups_in_feed_order (m : nat) (rows : list Row.t)
    (bq : list (string * list Candidate.t)) (q : string) :
  load m rows = Return bq ->
  Dict.get bq q
  = if decide (q ∈ Row.Query <$> py_rows rows)
    then Some (candidate_of m <$>
                 filter (fun r => Row.Query r = q) (py_rows rows))
    else None.
Proof.
  intros H. unfold load in H.
  pose proof (group_rows_keys m _ _ _ H) as Hk. simpl in Hk.
  rewrite filter_all in Hk by (intros k _; apply not_elem_of_nil).
  pose proof (group_rows_groups m _ _ _ q H) as Hg.
  simpl in Hg.
  pose proof (dict_get_is_Some bq q) as Hs.
  rewrite Hk, first_seen_elem in Hs.
  destruct (decide (q ∈ Row.Query <$> py_rows rows)) as [Hin|Hin].
  - apply Hs in Hin as [cs Hcs]. rewrite Hcs in Hg |- *. simpl in Hg.
    by rewrite Hg.
  - destruct (Dict.get bq q) as [cs|] eqn:Hcs; [|done].
    destruct Hin. apply Hs. by eexists.
Qed.

Lemma load_groups_in_feed_order_witness :
  Dict.get
    [("parse json",
      [Candidate.mk "https://github.com/o/r/blob/abc/a.py" 3;
       Candidate.mk "https://github.com/o/r/blob/abc/b.py" 3]);
     ("read file",
      [Candidate.mk "https://github.com/o/r/blob/abc/a.py" 2;
       Candidate.mk "https://github.com/o/r/blob/abc/c.py" 3])]
    "read file"
  = Some [Candidate.mk "https://github.com/o/r/blob/abc/a.py" 2;
          Candidate.mk "https://github.com/o/r/blob/abc/c.py" 3].
Proof.
  apply (load_groups_in_feed_order 4300 shared_locator_rows _ "read file"
           eq_refl).
Defined.

(** ** What [fetch_code] returns *)

Lemma str_take_length k s :
  String.length (Py.str_take k s) = Nat.min k (String.length s).
Proof.
  revert s. induction k as [|k IH]; intros [|c s]; simpl; [done..|].
  by rewrite IH.
Qed.

Lemma lstrip_starts_non_space s : starts_non_space (Py.lstrip s).
Proof.
  induction s as [|c s IH]; [done|]. cbn [Py.lstrip].
  destruct (Py.is_space c) eqn:Hc; [done|]. exact Hc.
Qed.

Lemma rstrip_starts_non_space s :
  starts_non_space s -> starts_non_space (Py.rstrip s).
Proof.
  destruct s as [|c s]; [done|]. cbn [Py.rstrip starts_non_space].
  intros Hc. rewrite Hc. exact Hc.
Qed.

Lemma str_take_starts_non_space k s :
  starts_non_space s -> starts_non_space (Py.str_take k s).
Proof. destruct k, s; done. Qed.

Lemma lstrip_fixed s : starts_non_space s -> Py.lstrip s = s.
Proof.
  destruct s as [|c s]; [done|]. cbn [Py.lstrip starts_non_space].
  by intros ->.
Qed.

Lemma finish_Some joined text :
  finish joined = Some text ->
  text = Py.str_take 2000 (Py.strip joined)
  /\ 30 <= Py.len text <= 2000 /\ starts_non_space text.
Proof.
  unfold finish, Py.str_slice_to. destruct (Z.ltb_spec (Py.len (Py.strip joined)) 30)
    as [|Hlen]; [done|].
  intros [= <-]. rewrite slice_index_nonneg by done.
  set (s := Py.strip joined) in *.
  assert (Py.str_take (Z.to_nat (Z.min (Py.len s) 2000)) s = Py.str_take 2000 s)
    as ->.
  { unfold Py.len. destruct (decide (String.length s <= 2000)%nat) as [Hle|Hgt].
    - assert (forall k s, (String.length s <= k)%nat -> Py.str_take k s = s)
        as Hfull.
      { clear. induction k as [|k IH]; intros [|c s]; simpl; try done; [lia|].
        intros ?. rewrite IH; [done | lia]. }
      rewrite !Hfull; [done | lia | lia].
    - f_equal. lia. }
  split; [done|]. split.
  - unfold Py.len in *. rewrite str_take_length. lia.
  - apply str_take_starts_non_space. apply rstrip_starts_non_space.
    apply lstrip_starts_non_space.
Qed.

(** X3: a text returned by [fetch_code] has between 30 and 2000 characters
    and does not begin with whitespace; it is the first 2000 characters of
    the trimmed lines cut out of the body the network gave for the
    locator's raw URL. In particular it is never empty. *)
Theorem fetch_code_text_bounds (m : nat) (net : string -> option string)
    (url text : string) :
  (fetch_code m net url).2 = Return (Some text) ->
  30 <= Py.len text <= 2000
  /\ Py.lstrip text = text
  /\ exists raw s e body,
       github_url_to_raw m url = Return (raw, s, e)
       /\ net raw = Some body
       /\ text = Py.str_take 2000
                   (Py.strip (extract (Py.splitlines body) s e)).
Proof.
  rewrite fetch_code_spec.
  destruct (github_url_to_raw m url) as [[[raw s] e]|]; [|done]. simpl.
  destruct (net raw) as [body|] eqn:Hnet; [|done].
  intros [= H]. apply finish_Some in H as (Htext & Hlen & Hstart).
  split; [done|]. split; [by apply lstrip_fixed|].
  by exists raw, s, e, body.
Qed.

Lemma fetch_code_text_bounds_witness :
  30 <= Py.len "def parse_json(text):
    return json.loads(text)" <= 2000.
Proof.
  apply (fetch_code_text_bounds 4300 (fun _ => Some sample_text)
           "https://github.com/o/r/blob/abc/b.py#L1-L2").
  reflexivity.
Defined.

Lemma fetch_value_truthy m net url text :
  fetch_value m net url = Some text -> Py.is_empty text = false.
Proof.
  unfold fetch_value. rewrite fetch_code_spec.
  destruct (github_url_to_raw m url) as [[[raw s] e]|]; [|done]. simpl.
  destruct (net raw) as [body|]; [|done].
  intros H. apply finish_Some in H as (_ & Hlen & _).
  destruct text; [|done]. unfold Py.len in Hlen. simpl in Hlen. lia.
Qed.

(** ** Sampling and the job list *)

Lemma negative_iff c : negative c <-> ~ positive c.
Proof. unfold negative, positive. lia. Qed.

Lemma filter_positive_negative cs : filter positive (filter negative cs) = [].
Proof.
  rewrite list_filter_filter.
  induction cs as [|c cs IH]; [done|].
  rewrite filter_cons_False; [done|]. rewrite negative_iff. tauto.
Qed.

Lemma filter_positive_prefix_negative cs k :
  k `prefix_of` filter negative cs -> filter positive k = [].
Proof.
  intros [k' Hk].
  pose proof (filter_positive_negative cs) as H.
  rewrite Hk, filter_app in H. by apply app_eq_nil in H as [? _].
Qed.

(** X4: the sample of a query takes each candidate at most as often as the
    feed lists it; it keeps every positive, in feed order, and the negatives
    it keeps are the first negatives in feed order. *)
Theorem selected_within_candidates (cs : list Candidate.t) :
  selected cs ⊆+ cs
  /\ filter positive (selected cs) = filter positive cs
  /\ filter negative (selected cs) `prefix_of` filter negative cs.
Proof.
  destruct (selected_negatives_prefix cs) as (kept & Hsel & Hkept).
  rewrite Hsel. split; [|split].
  - rewrite <- (filter_app_complement positive cs) at 2.
    apply submseteq_skips_l.
    assert (filter (fun c => ~ positive c) cs = filter negative cs) as ->.
    { apply list_filter_iff. intros c. by rewrite negative_iff. }
    destruct Hkept as [k' ->]. apply submseteq_inserts_r. done.
  - rewrite filter_app, list_filter_filter_l by done.
    rewrite (filter_positive_prefix_negative cs kept Hkept).
    by rewrite app_nil_r.
  - rewrite filter_app.
    assert (filter negative (filter positive cs) = []) as ->.
    { rewrite list_filter_filter. clear.
      induction cs as [|c cs IH]; [done|].
      rewrite filter_cons_False; [done|]. rewrite negative_iff. tauto. }
    simpl. destruct Hkept as [k' Hk].
    assert (filter negative kept = kept) as ->.
    { apply filter_all. intros c Hc.
      assert (c ∈ filter negative cs) as Hin by (rewrite Hk; set_solver).
      by apply list_elem_of_filter in Hin as [? _]. }
    by exists k'.
Qed.

(** X5: for a query with at most [MAX_CANDIDATES] positives the sample is
    all positives followed by the first negatives up to the cap, and it has
    [MAX_CANDIDATES] entries, or all candidates when there are fewer. *)
Theorem selected_fills_to_cap (cs : list Candidate.t) :
  Z.of_nat (length (filter positive cs)) <= MAX_CANDIDATES ->
  selected cs
  = filter positive cs ++
    take (Z.to_nat (MAX_CANDIDATES - Z.of_nat (length (filter positive cs))))
      (filter negative cs)
  /\ Z.of_nat (length (selected cs))
     = Z.min MAX_CANDIDATES (Z.of_nat (length cs)).
Proof.
  intros Hcap. unfold selected. rewrite slice_to_nonneg by lia.
  split; [done|].
  rewrite length_app, length_take.
  pose proof (positive_negative_split cs). lia.
Qed.

Lemma selected_fills_to_cap_witness :
  Z.of_nat (length (selected (snd scenario_b_query)))
  = Z.min MAX_CANDIDATES (Z.of_nat (length (snd scenario_b_query))).
Proof.
  apply (selected_fills_to_cap (snd scenario_b_query)). vm_compute. discriminate.
Defined.

Lemma submseteq_NoDup {A} (l k : list A) : l ⊆+ k -> NoDup k -> NoDup l.
Proof.
  intros Hsub Hnd. apply submseteq_Permutation in Hsub as [k' Hk].
  rewrite Hk in Hnd. by apply NoDup_app in Hnd as [? _].
Qed.

Lemma good_queries_submseteq bq : good_queries bq ⊆+ bq.
Proof.
  rewrite good_queries_take.
  etrans; [apply submseteq_take|].
  rewrite sorted_perm. apply sublist_submseteq, sublist_filter.
Qed.

(** X6: no query text is selected twice: the selection takes each entry of
    the loaded mapping at most once, and the texts of a loaded mapping are
    pairwise distinct. *)
Theorem good_queries_distinct (m : nat) (rows : list Row.t)
    (bq : list (string * list Candidate.t)) :
  load m rows = Return bq ->
  good_queries bq ⊆+ bq /\ NoDup (good_queries bq).*1.
Proof.
  intros H. split; [apply good_queries_submseteq|].
  apply (submseteq_NoDup _ bq.*1).
  - apply fmap_submseteq, good_queries_submseteq.
  - unfold load in H. apply group_rows_keys in H. rewrite H. simpl.
    rewrite filter_all by (intros k _; apply not_elem_of_nil).
    apply first_seen_NoDup.
Qed.

Lemma good_queries_distinct_witness :
  NoDup (good_queries
    [("parse json",
      [Candidate.mk "https://github.com/o/r/blob/abc/a.py" 3;
       Candidate.mk "https://github.com/o/r/blob/abc/b.py" 3]);
     ("read file",
      [Candidate.mk "https://github.com/o/r/blob/abc/a.py" 2;
       Candidate.mk "https://github.com/o/r/blob/abc/c.py" 3])]).*1.
Proof.
  apply (proj2 (good_queries_distinct 4300 shared_locator_rows _ eq_refl)).
Defined.

Lemma length_bind_le {A B} (f : A -> list B) (l : list A) (k : nat) :
  (forall x, x ∈ l -> (length (f x) <= k)%nat) ->
  (length (l ≫= f) <= length l * k)%nat.
Proof.
  induction l as [|x l IH]; intros Hk; [done|].
  rewrite bind_cons, length_app. simpl.
  pose proof (Hk x (list_elem_of_here _ _)).
  assert (length (l ≫= f) <= length l * k)%nat
    by (apply IH; intros y Hy; apply Hk; by right).
  lia.
Qed.

Lemma length_omap_le {A B} (f : A -> option B) (l : list A) :
  (length (omap f l) <= length l)%nat.
Proof.
  induction l as [|x l IH]; [done|]. cbn [omap list_omap].
  destruct (f x); simpl; lia.
Qed.

(** X7: when no selected query has more than [MAX_CANDIDATES] positives, a
    run issues at most [TARGET_QUERIES * MAX_CANDIDATES] network requests. *)
Theorem fetch_fan_out_bounded (m : nat) (rows : list Row.t)
    (net : nat -> string -> option string) (order : list nat) (now : string)
    (bq : list (string * list Candidate.t)) :
  load m rows = Return bq ->
  (forall entry, entry ∈ good_queries bq ->
     n_positives entry.2 <= MAX_CANDIDATES) ->
  Z.of_nat (length (main m rows net order now).1)
  <= TARGET_QUERIES * MAX_CANDIDATES.
Proof.
  intros Hload Hcap. rewrite main_spec, Hload. cbv zeta. cbn [fst].
  rewrite run_pool_requests.
  pose proof (length_omap_le (fun j => raw_of m (job_url j))
                (fetch_jobs (good_queries bq))) as Hreq.
  assert (length (fetch_jobs (good_queries bq))
          <= length (good_queries bq) * 12)%nat as Hjobs.
  { unfold fetch_jobs. apply length_bind_le. intros [query cs] Hin.
    rewrite length_fmap.
    pose proof (Hcap _ Hin) as Hc. simpl in Hc. unfold n_positives in Hc.
    pose proof (selected_length_within_cap cs Hc) as Hlen.
    unfold MAX_CANDIDATES in *. lia. }
  assert (length (good_queries bq) <= 25)%nat as Hsel.
  { rewrite good_queries_take, length_take. unfold TARGET_QUERIES. lia. }
  unfold TARGET_QUERIES, MAX_CANDIDATES. nia.
Qed.

Lemma fetch_fan_out_bounded_witness :
  Z.of_nat (length
    (main 4300 shared_locator_rows (fun _ _ => Some sample_text)
       [0; 1; 2; 3]%nat "2026-01-01T00:00:00+00:00").1)
  <= TARGET_QUERIES * MAX_CANDIDATES.
Proof.
  eapply (fetch_fan_out_bounded 4300 shared_locator_rows).
  - reflexivity.
  - intros entry Hin. vm_compute in Hin.
    apply elem_of_cons in Hin as [->|Hin]; [vm_compute; discriminate|].
    apply elem_of_cons in Hin as [->|Hin]; [vm_compute; discriminate|].
    by apply elem_of_nil in Hin.
Defined.

(** ** The fetch phase feeds the assembler *)

Lemma fold_step_lookup_Some m net jobs order :
  forall (results : gmap string (option string)) u v,
    fold_left (pool_step m net jobs) order results !! u = Some v ->
    results !! u = Some v
    \/ exists i j, i ∈ order /\ jobs !! i = Some j /\ job_url j = u
                   /\ v = fetch_value m (net i) u.
Proof.
  induction order as [|i order IH]; intros results u v; simpl; [auto|].
  intros H. apply IH in H as [H|(k & j & Hk & Hj & Hu & Hv)].
  - unfold pool_step in H. destruct (jobs !! i) as [j|] eqn:Hj; [|auto].
    destruct (decide (job_url j = u)) as [<-|Hne].
    + rewrite lookup_insert_eq in H. right. exists i, j.
      split; [left|]. split; [done|]. split; [done|]. congruence.
    + rewrite lookup_insert_ne in H by done. auto.
  - right. exists k, j. split; [by right | done].
Qed.

Lemma fetch_jobs_covers gq entry c :
  entry ∈ gq -> c ∈ selected entry.2 ->
  exists j, j ∈ fetch_jobs gq /\ job_url j = Candidate.url c.
Proof.
  intros Hentry Hc. destruct entry as [query cs]. simpl in Hc.
  exists (query, Candidate.url c, Candidate.relevance c). split; [|done].
  unfold fetch_jobs. apply list_elem_of_bind. exists (query, cs).
  split; [|done]. apply list_elem_of_fmap. by exists c.
Qed.

(** X8: once every future has completed, every sampled candidate of every
    selected query has an entry in the results map, and what the assembler
    reads for it is exactly what one of the fetch jobs for that locator
    returned: no lookup misses, and no fetched text is discarded as
    empty. *)
Theorem pool_covers_sample (m : nat) (net : nat -> string -> option string)
    (gq : list (string * list Candidate.t)) (order : list nat)
    (entry : string * list Candidate.t) (c : Candidate.t) :
  order ≡ₚ seq 0 (length (fetch_jobs gq)) ->
  entry ∈ gq -> c ∈ selected entry.2 ->
  exists i j,
    fetch_jobs gq !! i = Some j /\ job_url j = Candidate.url c
    /\ pool_results m net (fetch_jobs gq) order !! Candidate.url c
       = Some (fetch_value m (net i) (Candidate.url c))
    /\ resolved (pool_results m net (fetch_jobs gq) order) (Candidate.url c)
       = fetch_value m (net i) (Candidate.url c).
Proof.
  intros Hperm Hentry Hc.
  destruct (fetch_jobs_covers gq entry c Hentry Hc) as (j0 & Hj0 & Hu0).
  apply list_elem_of_lookup_1 in Hj0 as [i0 Hi0].
  destruct (pool_results m net (fetch_jobs gq) order !! Candidate.url c)
    as [v|] eqn:Hv.
  - pose proof Hv as Hv'. unfold pool_results in Hv'.
    apply fold_step_lookup_Some in Hv' as [Hv'|(i & j & _ & Hj & Hu & ->)].
    { by rewrite lookup_empty in Hv'. }
    exists i, j. split; [done|]. split; [done|]. split; [done|].
    unfold resolved. rewrite Hv.
    destruct (fetch_value m (net i) (Candidate.url c)) as [text|] eqn:Hf;
      [|done].
    by rewrite (fetch_value_truthy _ _ _ _ Hf).
  - unfold pool_results in Hv. apply fold_step_lookup_None in Hv as [_ Hno].
    destruct (Hno i0 j0); [|done..].
    rewrite Hperm. apply elem_of_seq. apply lookup_lt_Some in Hi0. lia.
Qed.

Lemma pool_covers_sample_witness :
  exists i j,
    fetch_jobs [scenario_b_query] !! i = Some j
    /\ job_url j = "https://github.com/o/r/blob/abc/b.py"
    /\ pool_results 4300 (fun _ _ => Some sample_text)
         (fetch_jobs [scenario_b_query]) [2; 0; 1]%nat
       !! "https://github.com/o/r/blob/abc/b.py"
       = Some (fetch_value 4300 (fun _ => Some sample_text)
                 "https://github.com/o/r/blob/abc/b.py")
    /\ resolved
         (pool_results 4300 (fun _ _ => Some sample_text)
            (fetch_jobs [scenario_b_query]) [2; 0; 1]%nat)
         "https://github.com/o/r/blob/abc/b.py"
       = fetch_value 4300 (fun _ => Some sample_text)
           "https://github.com/o/r/blob/abc/b.py".
Proof.
  apply (pool_covers_sample 4300 (fun _ _ => Some sample_text)
           [scenario_b_query] [2; 0; 1]%nat scenario_b_query
           (Candidate.mk "https://github.com/o/r/blob/abc/b.py" 3)).
  - apply (bool_decide_unpack _). vm_compute. exact I.
  - left.
  - vm_compute. right. left.
Defined.

(** ** Locators written out and parsed back *)

Lemma int_digits_of_uint d : forall b acc k,
  d <> Decimal.Nil \/ b = true ->
  Py.int_digits b (Z.of_nat acc) k (NilEmpty.string_of_uint d)
  = Some ((k + String.length (NilEmpty.string_of_uint d))%nat,
          Z.of_nat (Nat.of_uint_acc d acc)).
Proof.
  induction d; intros b acc k Hne;
    try (cbn [NilEmpty.string_of_uint Py.int_digits Nat.of_uint_acc
                String.length];
         match goal with
         | |- context [Py.is_digit ?c] =>
             change (Py.is_digit c) with true; cbv iota;
             let v := eval vm_compute in (Py.digit_val c) in
             change (Py.digit_val c) with v
         end;
         match goal with
         | |- Py.int_digits true ?a _ _
              = Some (_, Z.of_nat (Nat.of_uint_acc _ ?n)) =>
             replace a with (Z.of_nat n)
               by (rewrite ?Nat2Z.inj_succ, Nat.tail_mul_spec; lia)
         end;
         rewrite IHd by auto; do 2 f_equal; lia).
  simpl. destruct Hne as [Hne | ->]; [done|]. do 2 f_equal. lia.
Qed.

Lemma decimal_not_empty n : decimal n <> "".
Proof.
  unfold decimal. intros H.
  pose proof (NilEmpty.usu (Nat.to_uint n)) as Hu. rewrite H in Hu.
  simpl in Hu. injection Hu as Hu.
  pose proof (DecimalNat.Unsigned.of_to n) as Hn. rewrite <- Hu in Hn.
  simpl in Hn. subst n. vm_compute in Hu. discriminate.
Qed.

Lemma decimal_digits n : str_forall Py.is_digit (decimal n) = true.
Proof. apply string_of_uint_digits. Qed.

(** [int] reads a decimal literal back. *)
Lemma int_decimal m n :
  digits_fit m n -> Py.int m (decimal n) = Return (Z.of_nat n).
Proof.
  intros Hfit. unfold Py.int.
  rewrite (lskip_digits _ (decimal_digits n)),
    (rskip_digits _ (decimal_digits n)).
  pose proof (decimal_not_empty n) as Hne.
  pose proof (decimal_digits n) as Hd.
  assert (Py.int_digits false 0 0 (decimal n)
          = Some (String.length (decimal n), Z.of_nat n)) as Hi.
  { unfold decimal in *.
    pose proof (int_digits_of_uint (Nat.to_uint n) false 0 0) as Hx.
    change (Z.of_nat 0) with 0 in Hx. rewrite Hx.
    - change (Nat.of_uint_acc (Nat.to_uint n) 0)
        with (Nat.of_uint (Nat.to_uint n)).
      by rewrite DecimalNat.Unsigned.of_to.
    - left. intros Hnil. rewrite Hnil in Hne. done. }
  destruct (decimal n) as [|c r] eqn:Hdec; [done|].
  simpl in Hd. apply andb_true_iff in Hd as [Hc _].
  destruct (digit_not_sign _ Hc) as [-> ->].
  rewrite Hi.
  destruct Hfit as [->|Hfit]; [done|].
  rewrite Hdec in Hfit.
  destruct (Nat.ltb_spec m (String.length (String c r))) as [Hlt|Hge];
    [lia|]. by rewrite andb_false_r.
Qed.

Lemma strip_prefix_app p s : Re.strip_prefix p (p +:+ s) = Some s.
Proof.
  induction p as [|a p IH]; simpl; [done|]. by rewrite decide_True.
Qed.

Lemma span_app P a rest :
  str_forall P a = true ->
  match rest with EmptyString => True | String c _ => P c = false end ->
  Re.span P (a +:+ rest) = (a, rest).
Proof.
  intros Ha Hrest. induction a as [|c a IH]; simpl in *.
  - destruct rest as [|c r]; [done|]. simpl. by rewrite Hrest.
  - apply andb_true_iff in Ha as [-> Ha]. by rewrite IH.
Qed.

Lemma append_empty_r s : s +:+ "" = s.
Proof.
  induction s as [|c s IH]; [done|].
  change (String c s +:+ "") with (String c (s +:+ "")). by rewrite IH.
Qed.

Lemma append_not_empty a b : a <> "" -> a +:+ b <> "".
Proof. by destruct a. Qed.

Lemma is_empty_false s : s <> "" -> Py.is_empty s = false.
Proof. by destruct s. Qed.

(** The three shapes of the line fragment. *)
Lemma match_fragment_range a b :
  a <> "" -> b <> "" ->
  str_forall Py.is_digit a = true -> str_forall Py.is_digit b = true ->
  Re.match_fragment ("#L" +:+ a +:+ "-L" +:+ b) = Some (Some a, Some b).
Proof.
  intros Ha Hb Hda Hdb. unfold Re.match_fragment.
  rewrite (strip_prefix_app "#L").
  rewrite (span_app Py.is_digit a ("-L" +:+ b)) by done.
  rewrite (is_empty_false a) by done.
  rewrite (strip_prefix_app "-L").
  rewrite <- (append_empty_r b) at 1.
  rewrite (span_app Py.is_digit b "") by done.
  by rewrite (is_empty_false b).
Qed.

Lemma match_fragment_single a :
  a <> "" -> str_forall Py.is_digit a = true ->
  Re.match_fragment ("#L" +:+ a) = Some (Some a, None).
Proof.
  intros Ha Hda. unfold Re.match_fragment.
  rewrite (strip_prefix_app "#L").
  rewrite <- (append_empty_r a) at 1.
  rewrite (span_app Py.is_digit a "") by done.
  by rewrite (is_empty_false a).
Qed.

(** The lazy path group stops exactly where the path ends. *)
Lemma match_path_app p frag l1 l2 :
  is_path p ->
  Re.match_fragment frag = Some (l1, l2) ->
  Re.match_path (p +:+ frag) = Some (p, l1, l2).
Proof.
  intros [Hne Hp] Hfrag. induction p as [|c p IH]; [done|].
  cbn [str_forall] in Hp. apply andb_true_iff in Hp as [Hc Hp].
  apply andb_true_iff in Hc as [Hlf Hhash].
  apply negb_true_iff in Hlf, Hhash.
  change (String c p +:+ frag) with (String c (p +:+ frag)).
  cbn [Re.match_path]. rewrite Hlf.
  destruct p as [|c' p].
  - change ("" +:+ frag) with frag. by rewrite Hfrag.
  - assert (Re.match_fragment (String c' p +:+ frag) = None) as ->.
    { cbn [str_forall] in Hp. apply andb_true_iff in Hp as [Hc' _].
      apply andb_true_iff in Hc' as [Hlf' Hhash'].
      apply negb_true_iff in Hlf', Hhash'.
      change (String c' p +:+ frag) with (String c' (p +:+ frag)).
      unfold Re.match_fragment. cbn [Re.strip_prefix].
      rewrite decide_False.
      - cbn [Re.at_end]. destruct (p +:+ frag); [by rewrite Hlf' | done].
      - intros <-. done. }
    by rewrite IH.
Qed.

Lemma match_blob_url_built o r sha p frag l1 l2 :
  is_component o -> is_component r -> is_component sha -> is_path p ->
  Re.match_fragment frag = Some (l1, l2) ->
  Re.match_blob_url (blob_url o r sha p frag) = Some (o, r, sha, p, l1, l2).
Proof.
  intros [Ho1 Ho2] [Hr1 Hr2] [Hs1 Hs2] Hp Hfrag.
  unfold Re.match_blob_url, blob_url, mbind, option_bind.
  rewrite strip_prefix_app. cbv beta iota.
  rewrite (span_app Re.not_slash o) by done. cbv beta iota.
  rewrite (is_empty_false o) by done.
  rewrite (strip_prefix_app "/"). cbv beta iota.
  rewrite (span_app Re.not_slash r) by done. cbv beta iota.
  rewrite (is_empty_false r) by done.
  rewrite (strip_prefix_app "/blob/"). cbv beta iota.
  rewrite (span_app Re.not_slash sha) by done. cbv beta iota.
  rewrite (is_empty_false sha) by done.
  rewrite (strip_prefix_app "/"). cbv beta iota.
  by rewrite (match_path_app p frag l1 l2).
Qed.

(** X9: a locator written out from an owner, a repository and a revision
    without [/], a path without newline or [#], and line numbers in decimal
    parses back to the raw URL of the same parts and the same numbers; with
    a start line only the end is start+40, and without a fragment the range
    is 1..41. *)
Theorem locator_round_trip (m : nat) (owner repo sha path : string)
    (s e : nat) :
  is_component owner -> is_component repo -> is_component sha ->
  is_path path -> digits_fit m s -> digits_fit m e ->
  github_url_to_raw m
    (blob_url owner repo sha path
       ("#L" +:+ decimal s +:+ "-L" +:+ decimal e))
  = Return (raw_url owner repo sha path, Z.of_nat s, Z.of_nat e)
  /\ github_url_to_raw m
       (blob_url owner repo sha path ("#L" +:+ decimal s))
     = Return (raw_url owner repo sha path, Z.of_nat s, Z.of_nat s + 40)
  /\ github_url_to_raw m (blob_url owner repo sha path "")
     = Return (raw_url owner repo sha path, 1, 41).
Proof.
  intros Ho Hr Hsha Hp Hs He.
  pose proof (decimal_not_empty s) as Hs1.
  pose proof (decimal_not_empty e) as He1.
  pose proof (decimal_digits s) as Hs2.
  pose proof (decimal_digits e) as He2.
  unfold github_url_to_raw. split; [|split].
  - rewrite (match_blob_url_built _ _ _ _ _ (Some (decimal s))
               (Some (decimal e))); [|done..|by apply match_fragment_range].
    cbn [truthy default from_option]. unfold id.
    rewrite !is_empty_false by done. cbn [negb].
    rewrite !int_decimal by done. done.
  - rewrite (match_blob_url_built _ _ _ _ _ (Some (decimal s)) None);
      [|done..|by apply match_fragment_single].
    cbn [truthy default from_option]. unfold id.
    rewrite !is_empty_false by done. cbn [negb].
    rewrite !int_decimal by done. done.
  - by rewrite (match_blob_url_built _ _ _ _ _ None None).
Qed.

Lemma locator_round_trip_witness :
  github_url_to_raw 4300
    (blob_url "o" "r" "abc" "d/f.py"
       ("#L" +:+ decimal 10 +:+ "-L" +:+ decimal 30))
  = Return (raw_url "o" "r" "abc" "d/f.py", 10, 30).
Proof.
  apply (locator_round_trip 4300 "o" "r" "abc" "d/f.py" 10 30).
  - split; [discriminate | reflexivity].
  - split; [discriminate | reflexivity].
  - split; [discriminate | reflexivity].
  - split; [discriminate | reflexivity].
  - right. vm_compute. lia.
  - right. vm_compute. lia.
Defined.

(** ** The assembly loop, query by query *)

Lemma numbered_chunks_cons qid start p rc :
  numbered_chunks qid start (p :: rc)
  = Chunk.mk (cid_of qid (S start)) qid (Candidate.relevance p.1)
      (Candidate.url p.1) p.2
    :: numbered_chunks qid (S start) rc.
Proof.
  unfold numbered_chunks. rewrite imap_cons. f_equal.
  - f_equal. f_equal. lia.
  - apply imap_ext. intros k x _. simpl. do 2 f_equal. lia.
Qed.

Lemma build_q_chunks_closed results qid sel : forall counter,
  (build_q_chunks results qid sel counter []).2
  = numbered_chunks qid (default O (counter !! qid))
      (resolved_candidates results sel)
  /\ forall k, k <> qid ->
       (build_q_chunks results qid sel counter []).1 !! k = counter !! k.
Proof.
  induction sel as [|c rest IH]; intros counter; [done|].
  cbn [build_q_chunks resolved_candidates omap list_omap].
  destruct (resolved results (Candidate.url c)) as [code|] eqn:Hres;
    cbn [fmap option_fmap option_map]; [|apply IH].
  rewrite build_q_chunks_acc. cbn [fst snd app].
  destruct (IH (<[qid := S (default O (counter !! qid))]> counter))
    as [Hch Hcnt].
  rewrite lookup_insert_eq in Hch.
  change (default O (Some (S (default O (counter !! qid)))))
    with (S (default O (counter !! qid))) in Hch.
  split.
  - rewrite numbered_chunks_cons. by rewrite Hch.
  - intros k Hk. rewrite Hcnt by done. by apply lookup_insert_ne.
Qed.

Lemma assemble_step_closed results st qi entry :
  fresh_from qi st ->
  let st' := assemble_step results st qi entry in
  fresh_from (S qi) st'
  /\ queries_raw st'
     = queries_raw st ++
       (if decide (kept results entry) then [query_record results qi entry]
        else [])
  /\ chunks_raw st'
     = chunks_raw st ++
       (if decide (kept results entry) then query_chunks results qi entry
        else []).
Proof.
  intros Hfresh st'.
  destruct (build_q_chunks_closed results (qid_of qi) (selected entry.2)
              (chunk_counter st)) as [Hch Hcnt].
  rewrite (Hfresh qi) in Hch by done. simpl in Hch.
  fold (query_chunks results qi entry) in Hch.
  split.
  - intros j Hj.
    assert (chunk_counter st'
            = (build_q_chunks results (qid_of qi) (selected entry.2)
                 (chunk_counter st) []).1) as ->.
    { subst st'. destruct entry as [query cs]. unfold assemble_step.
      cbn [snd].
      destruct (build_q_chunks results (qid_of qi) (selected cs)
                  (chunk_counter st) []) as [counter new].
      destruct new; [done|]. by case_match. }
    rewrite Hcnt; [apply Hfresh; lia|].
    intros Heq. apply qid_of_inj in Heq. lia.
  - destruct (assemble_step_cases results st qi entry)
      as [(Hlt & Hq & Hc)|(Hge & Hq & Hc)]; subst st'; rewrite Hq, Hc.
    + rewrite !(decide_False (P := kept results entry))
        by (unfold kept; lia).
      by rewrite !app_nil_r.
    + rewrite !(decide_True (P := kept results entry)) by done.
      rewrite Hch. done.
Qed.

Lemma assemble_loop_closed results gq : forall st qi,
  fresh_from qi st ->
  queries_raw (assemble_loop results st qi gq)
  = queries_raw st ++ (assemble_from results qi gq).1
  /\ chunks_raw (assemble_loop results st qi gq)
     = chunks_raw st ++ (assemble_from results qi gq).2.
Proof.
  induction gq as [|entry rest IH]; intros st qi Hfresh.
  - simpl. by rewrite !app_nil_r.
  - cbn [assemble_loop assemble_from].
    destruct (assemble_step_closed results st qi entry Hfresh)
      as (Hfresh' & Hq & Hc).
    destruct (IH _ _ Hfresh') as [Hqs Hcs]. rewrite Hqs, Hcs, Hq, Hc.
    destruct (assemble_from results (S qi) rest) as [qs cs].
    destruct (decide (kept results entry)); cbn [fst snd];
      by rewrite <- !app_assoc.
Qed.

(** The loop with its shared counter computes the same lists as the
    query-by-query assembly that numbers each query's chunks from 1. *)
Lemma assemble_closed results gq :
  queries_raw (assemble results gq) = (assemble_from results 0 gq).1
  /\ chunks_raw (assemble results gq) = (assemble_from results 0 gq).2.
Proof.
  apply (assemble_loop_closed results gq (mk_state ∅ [] []) 0%nat).
  intros j _. apply lookup_empty.
Qed.

Lemma numbered_chunks_ids qid rc : forall start,
  Chunk.id <$> numbered_chunks qid start rc
  = cid_of qid <$> seq (S start) (length rc).
Proof.
  induction rc as [|p rc IH]; intros start; [done|].
  rewrite numbered_chunks_cons, fmap_cons. cbn [length seq].
  rewrite fmap_cons. f_equal. apply IH.
Qed.

Lemma numbered_chunks_elem qid rc c : forall start,
  c ∈ numbered_chunks qid start rc ->
  Chunk.query_id c = qid
  /\ exists p, p ∈ rc /\ Chunk.relevance c = Candidate.relevance p.1
               /\ Chunk.source_url c = Candidate.url p.1
               /\ Chunk.code c = p.2.
Proof.
  induction rc as [|p rc IH]; intros start Hc.
  - by apply elem_of_nil in Hc.
  - rewrite numbered_chunks_cons in Hc.
    apply elem_of_cons in Hc as [->|Hc].
    + split; [done|]. exists p. split; [left | done].
    + destruct (IH _ Hc) as (Hq & p' & Hp' & H). split; [done|].
      exists p'. split; [by right | done].
Qed.

Lemma numbered_chunks_fields qid rc : forall start,
  (fun c => (Chunk.relevance c, Chunk.source_url c, Chunk.code c))
    <$> numbered_chunks qid start rc
  = (fun p => (Candidate.relevance p.1, Candidate.url p.1, p.2)) <$> rc.
Proof.
  induction rc as [|p rc IH]; intros start; [done|].
  rewrite numbered_chunks_cons, !fmap_cons. f_equal. apply IH.
Qed.

Lemma resolved_candidates_elem results sel p :
  p ∈ resolved_candidates results sel <->
  p.1 ∈ sel /\ resolved results (Candidate.url p.1) = Some p.2.
Proof.
  unfold resolved_candidates. rewrite list_elem_of_omap. split.
  - intros (c & Hc & Hp).
    destruct (resolved results (Candidate.url c)) as [code|] eqn:Hr; [|done].
    simpl in Hp. injection Hp as <-. done.
  - intros [Hin Hr]. exists p.1. split; [done|]. rewrite Hr. simpl.
    by destruct p.
Qed.

Lemma assemble_from_queries results gq : forall qi q,
  q ∈ (assemble_from results qi gq).1 <->
  exists j entry, gq !! j = Some entry /\ kept results entry
                  /\ q = query_record results (qi + j) entry.
Proof.
  induction gq as [|e rest IH]; intros qi q.
  - simpl. split; [by intros ?%elem_of_nil | by intros (j & ? & ? & _)].
  - cbn [assemble_from].
    destruct (assemble_from results (S qi) rest) as [qs cs] eqn:Hrec.
    assert (q ∈ qs <->
            exists j entry, rest !! j = Some entry /\ kept results entry
                            /\ q = query_record results (S qi + j) entry)
      as Hqs by (rewrite <- (IH (S qi) q), Hrec; done).
    split.
    + intros Hq.
      assert (q ∈ qs ->
              exists j entry, (e :: rest) !! j = Some entry
                              /\ kept results entry
                              /\ q = query_record results (qi + j) entry)
        as Htail.
      { intros Hin. apply Hqs in Hin as (j & entry & Hj & Hk & ->).
        exists (S j), entry. split; [done|]. split; [done|].
        f_equal. lia. }
      destruct (decide (kept results e)) as [Hk|Hk]; cbn [fst] in Hq;
        [|by auto].
      apply elem_of_cons in Hq as [->|Hq]; [|by auto].
      exists 0%nat, e. split; [done|]. split; [done|]. f_equal. lia.
    + intros (j & entry & Hj & Hk & ->). destruct j as [|j].
      * simpl in Hj. injection Hj as <-. rewrite decide_True by done.
        cbn [fst]. rewrite Nat.add_0_r. left.
      * simpl in Hj.
        assert (query_record results (qi + S j) entry ∈ qs) as Hin.
        { apply Hqs. exists j, entry. split; [done|]. split; [done|].
          f_equal. lia. }
        destruct (decide (kept results e)); cbn [fst]; [by right | done].
Qed.

Lemma assemble_from_chunks results gq : forall qi c,
  c ∈ (assemble_from results qi gq).2 <->
  exists j entry, gq !! j = Some entry /\ kept results entry
                  /\ c ∈ query_chunks results (qi + j) entry.
Proof.
  induction gq as [|e rest IH]; intros qi c.
  - simpl. split; [by intros ?%elem_of_nil | by intros (j & ? & ? & _)].
  - cbn [assemble_from].
    destruct (assemble_from results (S qi) rest) as [qs cs] eqn:Hrec.
    assert (c ∈ cs <->
            exists j entry, rest !! j = Some entry /\ kept results entry
                            /\ c ∈ query_chunks results (S qi + j) entry)
      as Hcs by (rewrite <- (IH (S qi) c), Hrec; done).
    split.
    + intros Hc.
      assert (c ∈ cs ->
              exists j entry, (e :: rest) !! j = Some entry
                              /\ kept results entry
                              /\ c ∈ query_chunks results (qi + j) entry)
        as Htail.
      { intros Hin. apply Hcs in Hin as (j & entry & Hj & Hk & Hin).
        exists (S j), entry. split; [done|]. split; [done|].
        by replace (qi + S j)%nat with (S qi + j)%nat by lia. }
      destruct (decide (kept results e)) as [Hk|Hk]; cbn [snd] in Hc;
        [|by auto].
      apply elem_of_app in Hc as [Hc|Hc]; [|by auto].
      exists 0%nat, e. split; [done|]. split; [done|].
      by rewrite Nat.add_0_r.
    + intros (j & entry & Hj & Hk & Hin). destruct j as [|j].
      * simpl in Hj. injection Hj as <-. rewrite decide_True by done.
        cbn [snd]. rewrite Nat.add_0_r in Hin. apply elem_of_app. by left.
      * simpl in Hj.
        assert (c ∈ cs) as Hin'.
        { apply Hcs. exists j, entry. split; [done|]. split; [done|].
          by replace (S qi + j)%nat with (qi + S j)%nat by lia. }
        destruct (decide (kept results e)); cbn [snd]; [|done].
        apply elem_of_app. by right.
Qed.

Lemma assemble_from_chunk_ids results gq : forall qi,
  Chunk.id <$> (assemble_from results qi gq).2
  = concat (EvalQuery.chunkIds <$> (assemble_from results qi gq).1).
Proof.
  induction gq as [|e rest IH]; intros qi; [done|].
  cbn [assemble_from]. specialize (IH (S qi)).
  destruct (assemble_from results (S qi) rest) as [qs cs].
  cbn [fst snd] in IH.
  destruct (decide (kept results e)); cbn [fst snd]; [|done].
  rewrite fmap_app, fmap_cons. cbn [concat]. by rewrite IH.
Qed.

Lemma dataset_lists results gq now :
  queries (dataset results gq now) = (assemble_from results 0 gq).1
  /\ chunks (dataset results gq now)
     = chunks_out (assemble_from results 0 gq).2.
Proof.
  destruct (assemble_closed results gq) as [Hq Hc].
  unfold dataset. cbn [queries chunks]. by rewrite Hq, Hc.
Qed.

Lemma dataset_query results gq now q :
  q ∈ queries (dataset results gq now) <->
  exists qi entry, gq !! qi = Some entry /\ kept results entry
                   /\ q = query_record results qi entry.
Proof.
  destruct (dataset_lists results gq now) as [-> _].
  by rewrite assemble_from_queries.
Qed.

(** ** The shape of the assembled dataset *)

(** X10: the chunk ids of every output query are its own id followed by
    [_c01], [_c02], ... in order and without gaps: the numbering of a query
    starts at 1 whatever the queries before it. *)
Theorem chunk_ids_numbered_from_one (results : gmap string (option string))
    (gq : list (string * list Candidate.t)) (now : string)
    (q : EvalQuery.t) :
  q ∈ queries (dataset results gq now) ->
  EvalQuery.chunkIds q
  = cid_of (EvalQuery.id q) <$> seq 1 (length (EvalQuery.chunkIds q)).
Proof.
  intros Hq. apply dataset_query in Hq as (qi & entry & _ & _ & ->).
  unfold query_record, query_chunks. cbn [EvalQuery.chunkIds EvalQuery.id].
  rewrite numbered_chunks_ids. by rewrite length_fmap, length_seq.
Qed.

Lemma chunk_ids_numbered_from_one_witness :
  ["q_00_c01"; "q_00_c02"; "q_00_c03"]
  = cid_of "q_00" <$> seq 1 3.
Proof.
  apply (chunk_ids_numbered_from_one scenario_a_results [scenario_b_query]
           "2026-01-01T00:00:00+00:00"
           (EvalQuery.mk "q_00" "parse json" ["q_00_c01"; "q_00_c02"]
              [("q_00_c01", 3); ("q_00_c02", 3); ("q_00_c03", 1)]
              ["q_00_c01"; "q_00_c02"; "q_00_c03"])).
  vm_compute. left.
Defined.

Lemma assemble_from_indices results gq : forall qi,
  exists idxs,
    StronglySorted lt idxs
    /\ Forall (fun i => (qi <= i)%nat) idxs
    /\ EvalQuery.id <$> (assemble_from results qi gq).1 = qid_of <$> idxs
    /\ forall i, i ∈ idxs <->
         exists j entry, i = (qi + j)%nat /\ gq !! j = Some entry
                         /\ kept results entry.
Proof.
  induction gq as [|e rest IH]; intros qi.
  - exists []. split; [constructor|]. split; [constructor|]. split; [done|].
    intros i. split; [by intros ?%elem_of_nil | by intros (j & ? & _ & ? & _)].
  - destruct (IH (S qi)) as (idxs & Hsorted & Hge & Hids & Hmem).
    cbn [assemble_from].
    destruct (assemble_from results (S qi) rest) as [qs cs].
    cbn [fst] in Hids.
    assert (forall i, i ∈ idxs ->
              exists j entry, i = (qi + j)%nat
                              /\ (e :: rest) !! j = Some entry
                              /\ kept results entry) as Hup.
    { intros i Hi. apply Hmem in Hi as (j & entry & -> & Hj & Hk).
      exists (S j), entry. split; [lia | done]. }
    destruct (decide (kept results e)) as [Hk|Hk]; cbn [fst].
    + exists (qi :: idxs). split; [|split; [|split]].
      * constructor; [done|]. eapply Forall_impl; [exact Hge|].
        intros i Hi. simpl in Hi. lia.
      * constructor; [lia|]. eapply Forall_impl; [exact Hge|].
        intros i Hi. simpl in Hi. lia.
      * rewrite !fmap_cons. by rewrite Hids.
      * intros i. rewrite elem_of_cons. split.
        -- intros [->|Hi]; [|by auto].
           exists 0%nat, e. split; [lia | done].
        -- intros (j & entry & -> & Hj & Hke). destruct j as [|j].
           ++ left. lia.
           ++ right. apply Hmem. exists j, entry. split; [lia | done].
    + exists idxs. split; [done|]. split.
      { eapply Forall_impl; [exact Hge|]. intros i Hi. simpl in Hi. lia. }
      split; [done|]. intros i. split; [by auto|].
      intros (j & entry & -> & Hj & Hke). destruct j as [|j].
      * simpl in Hj. injection Hj as <-. done.
      * apply Hmem. exists j, entry. split; [lia | done].
Qed.

(** X11: the output lists the surviving queries in selection order: its ids
    are [q_<i>] for an increasing list of selection indices, and an index is
    in that list exactly when at least [MIN_POSITIVES] sampled positives of
    the query at that index resolved. *)
Theorem queries_kept_in_order (results : gmap string (option string))
    (gq : list (string * list Candidate.t)) (now : string) :
  exists idxs,
    StronglySorted lt idxs
    /\ EvalQuery.id <$> queries (dataset results gq now) = qid_of <$> idxs
    /\ forall i, i ∈ idxs <->
         exists entry, gq !! i = Some entry
                       /\ MIN_POSITIVES <= resolved_positives results entry.
Proof.
  destruct (assemble_from_indices results gq 0)
    as (idxs & Hsorted & _ & Hids & Hmem).
  exists idxs. split; [done|].
  destruct (dataset_lists results gq now) as [-> _]. split; [done|].
  intros i. rewrite Hmem. split.
  - intros (j & entry & -> & Hj & Hk). by exists entry.
  - intros (entry & Hi & Hk). by exists i, entry.
Qed.

Lemma resolved_candidates_length results sel :
  length (resolved_candidates results sel)
  = length (filter (fun c => is_Some (resolved results (Candidate.url c))) sel).
Proof.
  induction sel as [|c sel IH]; [done|].
  unfold resolved_candidates in *. cbn [omap list_omap].
  rewrite filter_cons.
  destruct (resolved results (Candidate.url c)) as [code|] eqn:Hr.
  - rewrite decide_True by done. simpl. by rewrite IH.
  - rewrite decide_False by (by intros [? ?]). simpl. exact IH.
Qed.

Lemma query_chunks_built results qi entry :
  query_chunks results qi entry
  = (build_q_chunks results (qid_of qi) (selected entry.2) ∅ []).2.
Proof.
  destruct (build_q_chunks_closed results (qid_of qi) (selected entry.2) ∅)
    as [-> _].
  by rewrite lookup_empty.
Qed.

(** X12: every output query stands for one selected query: it carries that
    query's text, one chunk id per sampled candidate whose locator resolved,
    and one relevant id per resolved sampled positive. *)
Theorem query_text_and_counts (results : gmap string (option string))
    (gq : list (string * list Candidate.t)) (now : string)
    (q : EvalQuery.t) :
  q ∈ queries (dataset results gq now) ->
  exists qi entry,
    gq !! qi = Some entry /\ EvalQuery.id q = qid_of qi
    /\ EvalQuery.query q = entry.1
    /\ length (EvalQuery.chunkIds q)
       = length (filter
           (fun c => is_Some (resolved results (Candidate.url c)))
           (selected entry.2))
    /\ Z.of_nat (length (EvalQuery.relevantIds q))
       = resolved_positives results entry.
Proof.
  intros Hq. apply dataset_query in Hq as (qi & entry & Hentry & _ & ->).
  exists qi, entry. split; [done|]. split; [done|]. split; [done|].
  unfold query_record. cbn [EvalQuery.chunkIds EvalQuery.relevantIds]. split.
  - rewrite length_fmap. unfold query_chunks, numbered_chunks.
    by rewrite length_imap, resolved_candidates_length.
  - rewrite length_fmap, query_chunks_built.
    destruct (build_q_chunks_props results (qid_of qi) (selected entry.2) ∅)
      as (_ & _ & ->).
    done.
Qed.

Lemma query_text_and_counts_witness :
  exists qi entry,
    [scenario_b_query] !! qi = Some entry /\ "q_00" = qid_of qi
    /\ "parse json" = entry.1
    /\ 3%nat
       = length (filter
           (fun c => is_Some (resolved scenario_a_results (Candidate.url c)))
           (selected entry.2))
    /\ 2 = resolved_positives scenario_a_results entry.
Proof.
  apply (query_text_and_counts scenario_a_results [scenario_b_query]
           "2026-01-01T00:00:00+00:00"
           (EvalQuery.mk "q_00" "parse json" ["q_00_c01"; "q_00_c02"]
              [("q_00_c01", 3); ("q_00_c02", 3); ("q_00_c03", 1)]
              ["q_00_c01"; "q_00_c02"; "q_00_c03"])).
  vm_compute. left.
Defined.

Lemma length_concat_fmap {A B} (f : A -> list B) (l : list A) :
  length (concat (f <$> l)) = sum_list_with (fun a => length (f a)) l.
Proof.
  induction l as [|a l IH]; [done|].
  rewrite fmap_cons. cbn [concat sum_list_with]. by rewrite length_app, IH.
Qed.

(** X13: the output chunks are the chunks of the output queries, query
    after query in the order of the queries and, within a query, in the
    order of its [chunkIds]; so [chunkCount] is the sum of the lengths of
    the queries' [chunkIds]. *)
Theorem chunks_grouped_by_query (results : gmap string (option string))
    (gq : list (string * list Candidate.t)) (now : string) :
  ChunkOut.id <$> chunks (dataset results gq now)
  = concat (EvalQuery.chunkIds <$> queries (dataset results gq now))
  /\ chunkCount (dataset results gq now)
     = Z.of_nat (sum_list_with (fun q => length (EvalQuery.chunkIds q))
                   (queries (dataset results gq now)))
  /\ queryCount (dataset results gq now)
     = Z.of_nat (length (queries (dataset results gq now))).
Proof.
  assert (ChunkOut.id <$> chunks (dataset results gq now)
          = concat (EvalQuery.chunkIds <$> queries (dataset results gq now)))
    as Hids.
  { destruct (dataset_lists results gq now) as [-> ->].
    rewrite chunks_out_ids. apply assemble_from_chunk_ids. }
  split; [done|]. split; [|done].
  rewrite <- length_concat_fmap, <- Hids, length_fmap.
  unfold dataset, chunks_out. cbn [chunkCount chunks].
  by rewrite length_fmap.
Qed.

(** ** Relevance annotations *)

Lemma dict_set_fresh {V} (d : list (string * V)) k v :
  k ∉ d.*1 -> Dict.set d k v = d ++ [(k, v)].
Proof.
  induction d as [|[k' v'] d IH]; intros Hk; [done|].
  cbn [Dict.set]. rewrite fmap_cons in Hk. apply not_elem_of_cons in Hk as [Hne Hk].
  rewrite decide_False by (intros ->; done). cbn [app]. by rewrite IH.
Qed.

Lemma comprehension_NoDup {A V} (key : A -> string) (val : A -> V)
    (l : list A) :
  NoDup (key <$> l) ->
  Dict.comprehension key val l = (fun c => (key c, val c)) <$> l.
Proof.
  unfold Dict.comprehension. intros Hnd.
  assert (forall d : list (string * V),
            NoDup (d.*1 ++ (key <$> l)) ->
            fold_left (fun d c => Dict.set d (key c) (val c)) l d
            = d ++ ((fun c => (key c, val c)) <$> l)) as Hgen.
  { clear Hnd. induction l as [|c l IH]; intros d Hd.
    - simpl. by rewrite app_nil_r.
    - cbn [fold_left]. rewrite fmap_cons in Hd.
      apply NoDup_app in Hd as (Hd1 & Hd2 & Hd3).
      apply NoDup_cons in Hd3 as [Hc Hl].
      rewrite dict_set_fresh by (intros Hin; apply (Hd2 _ Hin); left).
      rewrite IH.
      + rewrite fmap_cons, <- app_assoc. done.
      + rewrite fmap_app. cbn [fmap list_fmap fst]. rewrite <- app_assoc.
        apply NoDup_app. split; [done|]. split.
        * intros k Hk Hin. apply elem_of_cons in Hin as [->|Hin].
          -- apply (Hd2 _ Hk). left.
          -- apply (Hd2 _ Hk). by right.
        * apply NoDup_cons. done. }
  rewrite Hgen; [done|]. simpl. done.
Qed.

Lemma dict_get_elem {V} (d : list (string * V)) k v :
  NoDup d.*1 -> (k, v) ∈ d -> Dict.get d k = Some v.
Proof.
  induction d as [|[k' v'] d IH]; intros Hnd Hin.
  - by apply elem_of_nil in Hin.
  - rewrite fmap_cons in Hnd. apply NoDup_cons in Hnd as [Hk' Hnd].
    cbn [Dict.get]. apply elem_of_cons in Hin as [Heq|Hin].
    + injection Heq as -> ->. by rewrite decide_True.
    + rewrite decide_False; [by apply IH|].
      intros ->. apply Hk'. apply list_elem_of_fmap. by exists (k, v).
Qed.

Lemma filter_fmap {A B} (f : A -> B) (P : B -> Prop)
    `{!forall b, Decision (P b)} (l : list A) :
  filter P (f <$> l) = f <$> filter (fun a => P (f a)) l.
Proof.
  induction l as [|a l IH]; [done|].
  rewrite fmap_cons, !filter_cons, IH. by destruct (decide (P (f a))).
Qed.

Lemma query_chunks_ids_NoDup results qi entry :
  NoDup (Chunk.id <$> query_chunks results qi entry).
Proof. rewrite query_chunks_built. apply build_q_chunks_ids_NoDup. Qed.

Lemma query_record_scores results qi entry :
  EvalQuery.relevanceScores (query_record results qi entry)
  = (fun c => (Chunk.id c, Chunk.relevance c))
      <$> query_chunks results qi entry.
Proof.
  unfold query_record. cbn [EvalQuery.relevanceScores].
  apply comprehension_NoDup, query_chunks_ids_NoDup.
Qed.

(** X14: in every output query, [relevanceScores] lists the query's chunks
    in the order of [chunkIds], each with the relevance its chunk carries,
    and [relevantIds] are exactly the keys whose score is at least
    [RELEVANCE_THRESHOLD], in the same order. *)
Theorem scores_match_chunks (results : gmap string (option string))
    (gq : list (string * list Candidate.t)) (now : string)
    (q : EvalQuery.t) :
  q ∈ queries (dataset results gq now) ->
  (EvalQuery.relevanceScores q).*1 = EvalQuery.chunkIds q
  /\ EvalQuery.relevantIds q
     = (filter (fun p => RELEVANCE_THRESHOLD <= p.2)
          (EvalQuery.relevanceScores q)).*1
  /\ forall c, c ∈ chunks (dataset results gq now) ->
       ChunkOut.query_id c = EvalQuery.id q ->
       Dict.get (EvalQuery.relevanceScores q) (ChunkOut.id c)
       = Some (ChunkOut.relevance c).
Proof.
  intros Hq. apply dataset_query in Hq as (qi & entry & Hentry & Hkept & ->).
  rewrite query_record_scores.
  unfold query_record. cbn [EvalQuery.chunkIds EvalQuery.relevantIds
                              EvalQuery.id].
  split; [|split].
  - by rewrite <- list_fmap_compose.
  - rewrite filter_fmap, <- list_fmap_compose. done.
  - intros c Hc Hcq.
    destruct (dataset_lists results gq now) as [_ Hchunks].
    rewrite Hchunks in Hc. unfold chunks_out in Hc.
    apply list_elem_of_fmap in Hc as (c' & -> & Hc').
    cbn [ChunkOut.query_id ChunkOut.id ChunkOut.relevance] in *.
    apply assemble_from_chunks in Hc' as (j & entry' & Hj & _ & Hin).
    cbn [Nat.add] in Hin.
    pose proof (numbered_chunks_elem _ _ _ _ Hin) as [Hqid _].
    rewrite Hqid in Hcq. apply qid_of_inj in Hcq as ->.
    rewrite Hentry in Hj. injection Hj as <-.
    apply dict_get_elem.
    + rewrite <- list_fmap_compose. apply query_chunks_ids_NoDup.
    + apply list_elem_of_fmap. by exists c'.
Qed.

Lemma scores_match_chunks_witness :
  ["q_00_c01"; "q_00_c02"]
  = (filter (fun p : string * Z => RELEVANCE_THRESHOLD <= p.2)
       [("q_00_c01", 3); ("q_00_c02", 3); ("q_00_c03", 1)]).*1.
Proof.
  apply (scores_match_chunks scenario_a_results [scenario_b_query]
           "2026-01-01T00:00:00+00:00"
           (EvalQuery.mk "q_00" "parse json" ["q_00_c01"; "q_00_c02"]
              [("q_00_c01", 3); ("q_00_c02", 3); ("q_00_c03", 1)]
              ["q_00_c01"; "q_00_c02"; "q_00_c03"])).
  vm_compute. left.
Defined.

Lemma resolved_Some results url code :
  resolved results url = Some code ->
  results !! url = Some (Some code) /\ code <> "".
Proof.
  unfold resolved. destruct (results !! url) as [[c|]|]; [|done..].
  destruct c; simpl; [done|]. intros [= <-]. done.
Qed.

(** X15: every output chunk comes from a sampled candidate of the selected
    query it names: it has that candidate's relevance, and its code is the
    non-empty text the results map holds for that candidate's locator. *)
Theorem chunk_provenance (results : gmap string (option string))
    (gq : list (string * list Candidate.t)) (now : string)
    (c : ChunkOut.t) :
  c ∈ chunks (dataset results gq now) ->
  exists qi entry cand,
    gq !! qi = Some entry
    /\ ChunkOut.query_id c = qid_of qi
    /\ cand ∈ selected entry.2
    /\ ChunkOut.relevance c = Candidate.relevance cand
    /\ results !! Candidate.url cand = Some (Some (ChunkOut.code c))
    /\ ChunkOut.code c <> "".
Proof.
  intros Hc. destruct (dataset_lists results gq now) as [_ Hchunks].
  rewrite Hchunks in Hc. unfold chunks_out in Hc.
  apply list_elem_of_fmap in Hc as (c' & -> & Hc').
  cbn [ChunkOut.query_id ChunkOut.relevance ChunkOut.code].
  apply assemble_from_chunks in Hc' as (j & entry & Hj & _ & Hin).
  cbn [Nat.add] in Hin.
  apply numbered_chunks_elem in Hin as (Hqid & p & Hp & Hrel & _ & Hcode).
  apply resolved_candidates_elem in Hp as [Hsel Hres].
  apply resolved_Some in Hres as [Hres Hne].
  exists j, entry, p.1. rewrite Hcode. done.
Qed.

Lemma chunk_provenance_witness :
  exists qi entry cand,
    [scenario_b_query] !! qi = Some entry
    /\ "q_00" = qid_of qi
    /\ cand ∈ selected entry.2
    /\ 1 = Candidate.relevance cand
    /\ scenario_a_results !! Candidate.url cand = Some (Some sample_text)
    /\ sample_text <> "".
Proof.
  apply (chunk_provenance scenario_a_results [scenario_b_query]
           "2026-01-01T00:00:00+00:00"
           (ChunkOut.mk "q_00_c03" "q_00" 1 sample_text)).
  vm_compute. right. right. left.
Defined.

(** ** When every fetch succeeds *)

Lemma selected_filter_positive cs :
  filter positive (selected cs) = filter positive cs.
Proof.
  destruct (selected_negatives_prefix cs) as (kept_neg & -> & Hkept).
  rewrite filter_app, list_filter_filter_l by done.
  rewrite (filter_positive_prefix_negative cs kept_neg Hkept).
  by rewrite app_nil_r.
Qed.

Lemma filter_ext_in {A} (P Q : A -> Prop) `{!forall a, Decision (P a)}
    `{!forall a, Decision (Q a)} (l : list A) :
  (forall a, a ∈ l -> (P a <-> Q a)) -> filter P l = filter Q l.
Proof.
  induction l as [|a l IH]; intros Hext; [done|].
  rewrite !filter_cons.
  rewrite IH by (intros b Hb; apply Hext; by right).
  pose proof (Hext a (list_elem_of_here _ _)) as Ha.
  destruct (decide (P a)), (decide (Q a)); tauto.
Qed.

Lemma all_resolved_kept results entry :
  sufficient entry ->
  (forall c, c ∈ selected entry.2 ->
             is_Some (resolved results (Candidate.url c))) ->
  kept results entry
  /\ length (query_chunks results 0 entry) = length (selected entry.2).
Proof.
  intros Hsuff Hall. split.
  - unfold kept, resolved_positives.
    rewrite (filter_ext_in _ positive) by (intros c Hc; specialize (Hall c Hc); tauto).
    rewrite selected_filter_positive. exact Hsuff.
  - unfold query_chunks, numbered_chunks.
    rewrite length_imap, resolved_candidates_length.
    by rewrite filter_all.
Qed.

Lemma query_chunks_length results qi qi' entry :
  length (query_chunks results qi entry)
  = length (query_chunks results qi' entry).
Proof. unfold query_chunks, numbered_chunks. by rewrite !length_imap. Qed.

Lemma assemble_from_all_resolved results gq : forall qi,
  (forall entry, entry ∈ gq -> sufficient entry) ->
  (forall entry c, entry ∈ gq -> c ∈ selected entry.2 ->
                   is_Some (resolved results (Candidate.url c))) ->
  EvalQuery.query <$> (assemble_from results qi gq).1 = gq.*1
  /\ length (assemble_from results qi gq).2 = length (fetch_jobs gq).
Proof.
  induction gq as [|e rest IH]; intros qi Hsuff Hall; [done|].
  cbn [assemble_from].
  destruct (IH (S qi)) as [Hq Hc].
  { intros entry Hin. apply Hsuff. by right. }
  { intros entry c Hin. apply Hall. by right. }
  destruct (assemble_from results (S qi) rest) as [qs cs].
  cbn [fst snd] in Hq, Hc.
  destruct (all_resolved_kept results e) as [Hk Hlen].
  { apply Hsuff. left. }
  { intros c. apply Hall. left. }
  rewrite decide_True by done. cbn [fst snd]. split.
  - rewrite !fmap_cons. by rewrite Hq.
  - unfold fetch_jobs in *. rewrite bind_cons, !length_app, Hc.
    rewrite (query_chunks_length results qi 0), Hlen.
    destruct e as [query cands]. by rewrite length_fmap.
Qed.

(** X16: when every selected query has at least [MIN_POSITIVES] positives
    and every sampled candidate's locator resolved, no query is dropped: the
    output has the selected queries' texts in selection order and one chunk
    per fetch job. *)
Theorem all_resolved_nothing_dropped (results : gmap string (option string))
    (gq : list (string * list Candidate.t)) (now : string) :
  (forall entry, entry ∈ gq -> sufficient entry) ->
  (forall entry c, entry ∈ gq -> c ∈ selected entry.2 ->
                   is_Some (resolved results (Candidate.url c))) ->
  EvalQuery.query <$> queries (dataset results gq now) = gq.*1
  /\ length (chunks (dataset results gq now)) = length (fetch_jobs gq).
Proof.
  intros Hsuff Hall.
  destruct (dataset_lists results gq now) as [-> ->].
  unfold chunks_out. rewrite length_fmap.
  by apply assemble_from_all_resolved.
Qed.

Lemma all_resolved_nothing_dropped_witness :
  EvalQuery.query <$>
    queries (dataset scenario_a_results [scenario_b_query]
               "2026-01-01T00:00:00+00:00")
  = [scenario_b_query].*1.
Proof.
  apply (all_resolved_nothing_dropped scenario_a_results [scenario_b_query]
           "2026-01-01T00:00:00+00:00").
  - intros entry Hin. apply list_elem_of_singleton in Hin as ->.
    vm_compute. discriminate.
  - intros entry c Hin Hc. apply list_elem_of_singleton in Hin as ->.
    vm_compute in Hc.
    apply elem_of_cons in Hc as [->|Hc]; [by eexists|].
    apply elem_of_cons in Hc as [->|Hc]; [by eexists|].
    apply elem_of_cons in Hc as [->|Hc]; [by eexists|].
    by apply elem_of_nil in Hc.
Defined.

(** ** Runs *)

(** X17: a run raises exactly when loading the feed raises, and then with
    [ValueError] and before any request; once the feed is loaded the run
    returns an output whatever the network answers and in whatever order
    the fetches complete. *)
Theorem run_fails_only_on_load (m : nat) (rows : list Row.t)
    (net : nat -> string -> option string) (order : list nat)
    (now : string) :
  (forall e, (main m rows net order now).2 = Raise e <->
             load m rows = Raise e)
  /\ (forall e, load m rows = Raise e ->
        e = ValueError /\ (main m rows net order now).1 = [])
  /\ (forall bq, load m rows = Return bq ->
        exists out, (main m rows net order now).2 = Return out).
Proof.
  rewrite main_spec. split; [|split].
  - intros e. destruct (load m rows) as [bq|e']; cbv zeta; cbn [snd];
      split; intros H; by simplify_eq.
  - intros e He. rewrite He. split; [|done].
    unfold load in He.
    assert (forall rows d, group_rows m rows d = Raise e -> e = ValueError)
      as Hgr.
    { clear. induction rows as [|r rows IH]; intros d; simpl; [done|].
      destruct (relevance_of m r) as [z|e'] eqn:Hr; simpl.
      - apply IH.
      - intros [= <-]. by eapply relevance_of_raises_ValueError. }
    by eapply Hgr.
  - intros bq Hbq. rewrite Hbq. cbv zeta. cbn [snd]. by eexists.
Qed.

Lemma run_fails_only_on_load_witness :
  let now := "2026-01-01T00:00:00+00:00" in
  let net := fun (_ : nat) (_ : string) => @None string in
  let bad_rows :=
    [Row.mk "Python" "parse json" "https://github.com/o/r/blob/abc/f.py"
       (Some (String "028" "3"))] in
  (exists out,
     (main 4300 shared_locator_rows net [0; 1; 2; 3]%nat now).2 = Return out)
  /\ main 4300 bad_rows net [0%nat] now = ([], Raise ValueError).
Proof.
  intros now net bad_rows. split.
  - eapply (proj2 (proj2 (run_fails_only_on_load 4300 shared_locator_rows
                            net [0; 1; 2; 3]%nat now))).
    reflexivity.
  - destruct (run_fails_only_on_load 4300 bad_rows net [0%nat] now)
      as (Hiff & Hlog & _).
    assert (load 4300 bad_rows = Raise ValueError) as Hload by reflexivity.
    destruct (Hlog _ Hload) as [_ Hnil].
    apply Hiff in Hload.
    destruct (main 4300 bad_rows net [0%nat] now) as [log r].
    simpl in Hnil, Hload. by subst.
Defined.

Lemma raw_of_host m url raw :
  raw_of m url = Some raw ->
  exists rest, raw = "https://raw.githubusercontent.com/" +:+ rest.
Proof.
  unfold raw_of, github_url_to_raw.
  destruct (Re.match_blob_url url) as [[[[[[o r] sha] p] l1] l2]|]; [|done].
  unfold mbind, res_mbind, res_bind.
  destruct (if truthy l1 then _ else _) as [s|]; [|done].
  destruct (if truthy l2 then _ else _) as [e|]; [|done].
  intros [= <-]. by eexists.
Qed.

(** X18: every request of a run goes to [raw.githubusercontent.com], and it
    is the raw URL of the locator of one of the run's fetch jobs. *)
Theorem requests_go_to_raw_host (m : nat) (rows : list Row.t)
    (net : nat -> string -> option string) (order : list nat)
    (now : string) (request : string) :
  request ∈ (main m rows net order now).1 ->
  (exists rest, request = "https://raw.githubusercontent.com/" +:+ rest)
  /\ exists j, j ∈ jobs_of m rows /\ raw_of m (job_url j) = Some request.
Proof.
  rewrite main_spec. unfold jobs_of.
  destruct (load m rows) as [bq|e]; cbv zeta; cbn [fst];
    [|by intros ?%elem_of_nil].
  rewrite run_pool_requests. intros Hin.
  apply list_elem_of_omap in Hin as (j & Hj & Hraw).
  split; [by eapply raw_of_host | by exists j].
Qed.

Lemma requests_go_to_raw_host_witness :
  exists rest,
    "https://raw.githubusercontent.com/o/r/abc/c.py"
    = "https://raw.githubusercontent.com/" +:+ rest.
Proof.
  apply (requests_go_to_raw_host 4300 shared_locator_rows
           (fun _ _ => Some sample_text) [0; 1; 2; 3]%nat
           "2026-01-01T00:00:00+00:00").
  vm_compute. right. right. right. left.
Defined.

(** ** The embedding stage *)

Section EmbeddingFacts.
Context {vec : Type}.

Lemma attach_Some {A B} (f : A -> B) (embs : list vec) items : forall i,
  (i + length items <= length embs)%nat ->
  attach f embs i items
  = Some (zip (f <$> items) (take (length items) (drop i embs))).
Proof.
  induction items as [|x items IH]; intros i Hlen; [done|].
  cbn [attach length] in *.
  destruct (lookup_lt_is_Some_2 embs i) as [v Hv]; [lia|].
  rewrite Hv. cbn [mbind option_bind]. rewrite IH by lia.
  cbn [mbind option_bind]. do 2 f_equal.
  rewrite (drop_S embs v i Hv). cbn [take]. rewrite fmap_cons. done.
Qed.

Lemma attach_None {A B} (f : A -> B) (embs : list vec) items : forall i,
  (length embs < i + length items)%nat -> items <> [] ->
  attach f embs i items = None.
Proof.
  induction items as [|x items IH]; intros i Hlen Hne; [done|].
  cbn [attach length] in *.
  destruct (embs !! i) as [v|] eqn:Hv; [|done]. cbn [mbind option_bind].
  destruct items as [|y items].
  - apply lookup_lt_Some in Hv. simpl in Hlen. lia.
  - rewrite IH; [done | simpl in *; lia | done].
Qed.

Lemma slice_from_nonneg {A} (l : list A) k :
  0 <= k -> Py.slice l (Some k) None = drop (Z.to_nat k) l.
Proof.
  intros Hk. unfold Py.slice. rewrite slice_index_nonneg by done.
  destruct (decide (k <= Z.of_nat (length l))) as [Hle|Hgt].
  - rewrite Z.min_r by done. rewrite take_ge; [done|].
    rewrite length_drop. lia.
  - rewrite Z.min_l by lia. rewrite Nat2Z.id, Z.sub_diag. simpl.
    rewrite take_0. symmetry. apply drop_ge. lia.
Qed.

Lemma zip_fmap_same {A B C} (g : A -> B) (h : A -> C) (l : list A) :
  zip (g <$> l) (h <$> l) = (fun a => (g a, h a)) <$> l.
Proof. induction l as [|a l IH]; [done|]. rewrite !fmap_cons. simpl. by rewrite IH. Qed.

Lemma embed_stage_spec (encode : list string -> list vec) chunks_raw
    queries_raw :
  let e := encode (texts_to_embed chunks_raw queries_raw) in
  let n := length chunks_raw in
  let k := length queries_raw in
  embed_stage encode chunks_raw queries_raw
  = if decide (n + k <= length e)%nat
    then Some (zip (chunk_out <$> chunks_raw) (take n e),
               zip queries_raw (take k (drop n e)))
    else None.
Proof.
  intros e n k. unfold embed_stage. fold e.
  rewrite slice_to_nonneg, slice_from_nonneg by lia. rewrite Nat2Z.id.
  fold n.
  destruct (decide (n + k <= length e)%nat) as [Hle|Hgt].
  - rewrite (attach_Some chunk_out (take n e) chunks_raw 0)
      by (rewrite length_take; fold n; lia).
    cbn [mbind option_bind].
    rewrite (attach_Some (fun q => q) (drop n e) queries_raw 0)
      by (rewrite length_drop; fold k; lia).
    cbn [mbind option_bind]. rewrite !drop_0, list_fmap_id.
    fold n k. do 3 f_equal. rewrite take_take. f_equal. lia.
  - destruct (decide (n <= length e)%nat) as [Hn|Hn].
    + rewrite (attach_Some chunk_out (take n e) chunks_raw 0)
        by (rewrite length_take; fold n; lia).
      cbn [mbind option_bind].
      rewrite (attach_None (fun q => q) (drop n e) queries_raw 0);
        [done | rewrite length_drop; fold k; lia |].
      intros Hq. subst k. rewrite Hq in Hgt. simpl in Hgt. lia.
    + rewrite (attach_None chunk_out (take n e) chunks_raw 0);
        [done | rewrite length_take; fold n; lia |].
      intros Hc. subst n. rewrite Hc in Hn. simpl in Hn. lia.
Qed.

(** X19: when the encoder returns one vector per text, computed from that
    text alone, the stage pairs every chunk with the vector of its own code
    and every query with the vector of its own text, in the order of the
    assembled lists. *)
Theorem embed_stage_aligned (encode : list string -> list vec)
    (f : string -> vec) (chunks_raw : list Chunk.t)
    (queries_raw : list EvalQuery.t) :
  encode (texts_to_embed chunks_raw queries_raw)
  = f <$> texts_to_embed chunks_raw queries_raw ->
  embed_stage encode chunks_raw queries_raw
  = Some ((fun c => (chunk_out c, f (Chunk.code c))) <$> chunks_raw,
          (fun q => (q, f (EvalQuery.query q))) <$> queries_raw).
Proof.
  intros Henc. rewrite embed_stage_spec. cbv zeta. rewrite Henc.
  unfold texts_to_embed.
  rewrite length_fmap, length_app, !length_fmap.
  rewrite decide_True by lia. rewrite fmap_app.
  rewrite take_app_length' by (by rewrite !length_fmap).
  rewrite drop_app_length' by (by rewrite !length_fmap).
  rewrite take_ge by (by rewrite !length_fmap).
  rewrite <- !list_fmap_compose.
  rewrite (zip_fmap_same chunk_out (f ∘ Chunk.code)).
  rewrite <- (list_fmap_id queries_raw) at 1.
  rewrite (zip_fmap_same id (f ∘ EvalQuery.query)). done.
Qed.

(** X20: the stage succeeds exactly when the encoder returned at least as
    many vectors as there are chunks and queries; it then keeps every chunk
    and every query, in order, takes the first vectors for the chunks and
    the following ones for the queries, and ignores any further vector. *)
Theorem embed_stage_needs_all_vectors (encode : list string -> list vec)
    (chunks_raw : list Chunk.t) (queries_raw : list EvalQuery.t) :
  let e := encode (texts_to_embed chunks_raw queries_raw) in
  let n := length chunks_raw in
  let k := length queries_raw in
  (is_Some (embed_stage encode chunks_raw queries_raw)
   <-> (n + k <= length e)%nat)
  /\ forall cs qs,
       embed_stage encode chunks_raw queries_raw = Some (cs, qs) ->
       cs.*1 = chunk_out <$> chunks_raw /\ cs.*2 = take n e
       /\ qs.*1 = queries_raw /\ qs.*2 = take k (drop n e).
Proof.
  intros e n k. rewrite embed_stage_spec. fold e n k.
  destruct (decide (n + k <= length e)%nat) as [Hle|Hgt].
  - split; [split; [done | by eexists]|].
    intros cs qs [= <- <-].
    rewrite !fst_zip, !snd_zip; [done|..];
      rewrite ?length_fmap, ?length_take, ?length_drop; fold n k; lia.
  - split; [|done]. split; [by intros [? ?] | done].
Qed.

End EmbeddingFacts.

Lemma embed_stage_aligned_witness :
  embed_stage (fmap String.length) sample_chunks_raw sample_queries_raw
  = Some ((fun c => (chunk_out c, String.length (Chunk.code c)))
            <$> sample_chunks_raw,
          (fun q => (q, String.length (EvalQuery.query q)))
            <$> sample_queries_raw).
Proof.
  apply (embed_stage_aligned (fmap String.length) String.length
           sample_chunks_raw sample_queries_raw).
  reflexivity.
Defined.

Lemma embed_stage_needs_all_vectors_witness :
  ~ is_Some (embed_stage (fun texts => take 2 (String.length <$> texts))
               sample_chunks_raw sample_queries_raw).
Proof.
  intros H.
  apply (proj1 (embed_stage_needs_all_vectors
                  (fun texts => take 2 (String.length <$> texts))
                  sample_chunks_raw sample_queries_raw)) in H.
  vm_compute in H. lia.
Defined.

Lemma queries_kept_in_order_witness :
  exists idxs,
    StronglySorted lt idxs
    /\ EvalQuery.id <$>
         queries (dataset scenario_b_results [scenario_b_query]
                    "2026-01-01T00:00:00+00:00")
       = qid_of <$> idxs
    /\ forall i, i ∈ idxs <->
         exists entry, [scenario_b_query] !! i = Some entry
                       /\ MIN_POSITIVES
                          <= resolved_positives scenario_b_results entry.
Proof.
  apply (queries_kept_in_order scenario_b_results [scenario_b_query]
           "2026-01-01T00:00:00+00:00").
Defined.
